(** * MIPP: medical insurance premium prediction

    A shallow embedding of the two artefacts of the repository:

    - the relational schema ([users], [predictions], the foreign key with
      [ON DELETE CASCADE], the two [UNIQUE] columns and [AUTOINCREMENT]),
      together with the persistence contract that runs on it;
    - the client script [static/js/script.js]: the field validators, the
      BMI categories, [validateField] and [submitPredictionAJAX].

    Tables are finite maps from the primary key to the remaining columns,
    JavaScript numbers are IEEE 754 binary64 values ([spec_float]),
    JavaScript strings are sequences of UTF-16 code units. *)

From stdpp Require Import base option list gmap fin_maps sorting.
From Stdlib Require Import ZArith NArith String Ascii Bool Lia.
From Stdlib Require Import Floats.SpecFloat.

Local Open Scope Z_scope.

(** ** The schema *)

(** Table [users].  The [INTEGER PRIMARY KEY AUTOINCREMENT] column [id] is
    the key of the table map; the record holds the other columns.
    [is_admin] and [created_at] are filled from their [DEFAULT]. *)
Module users.
Record row : Type := Row {
  username : string;
  email : string;
  password_hash : string;
  is_admin : bool;
  created_at : Z
}.
End users.

(** Table [predictions]; [id] is again the key of the table map. *)
Module predictions.
Record row : Type := Row {
  user_id : Z;
  age : Z;
  gender : string;
  bmi : spec_float;
  children : Z;
  smoker : string;
  region : string;
  predicted_premium : spec_float;
  created_at : Z
}.
End predictions.

(** The database: both tables and, for each, the [sqlite_sequence] counter
    that [AUTOINCREMENT] maintains (the largest key ever handed out). *)
Record Store : Type := mkStore {
  users_table : gmap Z users.row;
  predictions_table : gmap Z predictions.row;
  users_seq : Z;
  predictions_seq : Z
}.

Definition empty_store : Store :=
  {| users_table := ∅; predictions_table := ∅;
     users_seq := 0; predictions_seq := 0 |}.

(** [AUTOINCREMENT]: the new key is one more than the largest key that is
    or ever was in the table. *)
Definition autoincrement {A} (table : gmap Z A) (seq : Z) : Z :=
  Z.succ (map_fold (fun k _ acc => Z.max k acc) seq table).

(** The [UNIQUE] constraints of [users]. *)
Definition username_taken (s : Store) (name : string) : Prop :=
  map_Exists (fun _ u => users.username u = name) (users_table s).

Definition email_taken (s : Store) (mail : string) : Prop :=
  map_Exists (fun _ u => users.email u = mail) (users_table s).

(** The [FOREIGN KEY (user_id) REFERENCES users (id)] constraint. *)
Definition user_exists (s : Store) (userId : Z) : Prop :=
  is_Some (users_table s !! userId).

Definition referential_integrity (s : Store) : Prop :=
  forall pid p, predictions_table s !! pid = Some p ->
    user_exists s (predictions.user_id p).

(** ** The persistence contract *)

Inductive Error : Type :=
  | DuplicateUsername
  | DuplicateEmail
  | ForeignKeyViolation
  | NotFound.

Inductive Result (A : Type) : Type :=
  | Ok (a : A)
  | Fails (e : Error).
Arguments Ok {A} a.
Arguments Fails {A} e.

(** The six attributes of a prediction request. *)
Record Attributes : Type := mkAttributes {
  attr_age : Z;
  attr_gender : string;
  attr_bmi : spec_float;
  attr_children : Z;
  attr_smoker : string;
  attr_region : string
}.

(** Modelled from the spec: the insertion of [createUser], which is not in
    the sources, once the constraints hold: the key comes from
    [AUTOINCREMENT], [is_admin] and [created_at] from their defaults;
    [now] is the value of [CURRENT_TIMESTAMP]. *)
Definition insertUser (s : Store) (username email passwordHash : string)
    (now : Z) : Store * Result Z :=
  let id := autoincrement (users_table s) (users_seq s) in
  let u := users.Row username email passwordHash false now in
  ({| users_table := <[id := u]> (users_table s);
      predictions_table := predictions_table s;
      users_seq := id;
      predictions_seq := predictions_seq s |}, Ok id).

(** Modelled from the spec: [createUser] is not in the sources; it is the
    [INSERT INTO users] of the contract.  A statement that violates a
    [UNIQUE] column fails with the error of that column and leaves the
    database as it was.  When both columns are violated the statement
    still has one error, that of the column the engine checks first;
    neither the schema nor the contract says which it is, so the order is
    a parameter, [email_first]. *)
Definition createUser (email_first : bool) (s : Store)
    (username email passwordHash : string) (now : Z) : Store * Result Z :=
  if email_first then
    if decide (email_taken s email) then (s, Fails DuplicateEmail)
    else if decide (username_taken s username)
         then (s, Fails DuplicateUsername)
    else insertUser s username email passwordHash now
  else
    if decide (username_taken s username) then (s, Fails DuplicateUsername)
    else if decide (email_taken s email) then (s, Fails DuplicateEmail)
    else insertUser s username email passwordHash now.

(** Modelled from the spec: [getUserByUsernameOrEmail] is not in the
    sources; it returns a user whose [username] or [email] is the key. *)
Definition getUserByUsernameOrEmail (s : Store) (key : string)
    : Result (Z * users.row) :=
  match
    List.find (fun '(_, u) =>
                 bool_decide (users.username u = key)
                 || bool_decide (users.email u = key))
              (map_to_list (users_table s))
  with
  | Some r => Ok r
  | None => Fails NotFound
  end.

(** Modelled from the spec: [recordPrediction] is not in the sources; it is
    the [INSERT INTO predictions] of the contract, refused by the foreign
    key when [userId] is not the key of a [users] row. *)
Definition recordPrediction (s : Store) (userId : Z) (a : Attributes)
    (predictedPremium : spec_float) (now : Z) : Store * Result Z :=
  if decide (user_exists s userId) then
    let id := autoincrement (predictions_table s) (predictions_seq s) in
    let p := predictions.Row userId (attr_age a) (attr_gender a) (attr_bmi a)
               (attr_children a) (attr_smoker a) (attr_region a)
               predictedPremium now in
    ({| users_table := users_table s;
        predictions_table := <[id := p]> (predictions_table s);
        users_seq := users_seq s;
        predictions_seq := id |}, Ok id)
  else (s, Fails ForeignKeyViolation).

(** Modelled from the spec: [deleteUser] is not in the sources; it is
    [DELETE FROM users WHERE id = userId].  When a row is deleted,
    [ON DELETE CASCADE] deletes the predictions that reference it; when no
    row has that key the statement changes nothing. *)
Definition deleteUser (s : Store) (userId : Z) : Store :=
  if decide (user_exists s userId) then
    {| users_table := delete userId (users_table s);
       predictions_table :=
         filter (fun kp => predictions.user_id kp.2 <> userId)
                (predictions_table s);
       users_seq := users_seq s;
       predictions_seq := predictions_seq s |}
  else s.

(** The order of [ORDER BY created_at] on rows with their keys. *)
Definition created_at_le (x y : Z * predictions.row) : Prop :=
  predictions.created_at x.2 <= predictions.created_at y.2.

#[local] Instance created_at_le_dec x y : Decision (created_at_le x y).
Proof. unfold created_at_le. apply _. Defined.

(** Modelled from the spec: [listPredictionsForUser] is not in the sources;
    it is [SELECT * FROM predictions WHERE user_id = userId
    ORDER BY created_at]. *)
Definition listPredictionsForUser (s : Store) (userId : Z)
    : list (Z * predictions.row) :=
  merge_sort created_at_le
    (map_to_list
       (filter (fun kp => predictions.user_id kp.2 = userId)
               (predictions_table s))).

(** The statements of the contract that change the database. *)
Inductive Statement : Type :=
  | CreateUser (username email passwordHash : string) (now : Z)
  | RecordPrediction (userId : Z) (a : Attributes)
      (predictedPremium : spec_float) (now : Z)
  | DeleteUser (userId : Z).

Definition execute (email_first : bool) (s : Store) (st : Statement)
    : Store :=
  match st with
  | CreateUser u e h now => (createUser email_first s u e h now).1
  | RecordPrediction uid a p now => (recordPrediction s uid a p now).1
  | DeleteUser uid => deleteUser s uid
  end.

(** The states the database can be in: the empty database and what any
    sequence of statements makes of it. *)
Inductive reachable (email_first : bool) : Store -> Prop :=
  | reachable_empty : reachable email_first empty_store
  | reachable_execute s st :
      reachable email_first s ->
      reachable email_first (execute email_first s st).

(** ** JavaScript strings and numbers *)

(** A string is its sequence of UTF-16 code units. *)
Definition jsstring : Type := list N.

(** The string of an ASCII literal of the script. *)
Definition js (s : string) : jsstring :=
  List.map N_of_ascii (list_ascii_of_string s).

Definition jsstring_eqb (a b : jsstring) : bool := bool_decide (a = b).

(** A Number is a binary64 value. *)
Definition Number : Type := spec_float.

Definition NaN : Number := S754_nan.

(** The Number of the mathematical value [m * 2^e], rounded to nearest,
    ties to even. *)
Definition dyadic (m e : Z) : Number := binary_normalize 53 1024 m e false.

Definition of_Z (z : Z) : Number := dyadic z 0.

(** The relational operators on Numbers (IsLessThan of ECMAScript: a
    comparison with NaN is undefined, and every operator maps undefined
    to false).  [a > b] is evaluated as [b < a], [a <= b] as the negation
    of [b < a], [a >= b] as the negation of [a < b]. *)
Definition js_lt (a b : Number) : bool :=
  match SFcompare a b with Some Lt => true | _ => false end.

Definition js_gt (a b : Number) : bool := js_lt b a.

Definition js_le (a b : Number) : bool :=
  match SFcompare b a with Some Lt | None => false | Some _ => true end.

Definition js_ge (a b : Number) : bool :=
  match SFcompare a b with Some Lt | None => false | Some _ => true end.

(** WhiteSpace and LineTerminator code units: what [String.prototype.trim],
    [parseInt], [parseFloat] skip and what [\s] matches. *)
Definition isWhiteSpace (c : N) : bool :=
  ((9 <=? c) && (c <=? 13) || (c =? 32) || (c =? 160) || (c =? 5760)
   || (8192 <=? c) && (c <=? 8202) || (c =? 8232) || (c =? 8233)
   || (c =? 8239) || (c =? 8287) || (c =? 12288) || (c =? 65279))%N.

Fixpoint trimStart (s : jsstring) : jsstring :=
  match s with
  | c :: r => if isWhiteSpace c then trimStart r else s
  | [] => []
  end.

Definition trimEnd (s : jsstring) : jsstring := rev (trimStart (rev s)).

Definition trim (s : jsstring) : jsstring := trimEnd (trimStart s).

(** The value of a code unit as a digit: [0-9], then [a-z] or [A-Z] for
    ten to thirty-five. *)
Definition digitValue (c : N) : option Z :=
  if ((48 <=? c) && (c <=? 57))%N then Some (Z.of_N c - 48)
  else if ((97 <=? c) && (c <=? 122))%N then Some (Z.of_N c - 87)
  else if ((65 <=? c) && (c <=? 90))%N then Some (Z.of_N c - 55)
  else None.

(** The longest prefix of [s] made of radix-[R] digits, as digit values,
    and what follows it. *)
Fixpoint digitsPrefix (R : Z) (s : jsstring) : list Z * jsstring :=
  match s with
  | c :: r =>
      match digitValue c with
      | Some d =>
          if d <? R then let '(ds, rest) := digitsPrefix R r in (d :: ds, rest)
          else ([], s)
      | None => ([], s)
      end
  | [] => ([], [])
  end.

Definition digitsValue (R : Z) (ds : list Z) : Z :=
  fold_left (fun acc d => acc * R + d) ds 0.

(** A leading [+] or [-]: the sign ([true] for negative) and the rest. *)
Definition stripSign (s : jsstring) : bool * jsstring :=
  match s with
  | 45%N :: r => (true, r)
  | 43%N :: r => (false, r)
  | _ => (false, s)
  end.

(** The Number of a signed integer. *)
Definition signedInteger (sign : bool) (n : Z) : Number :=
  match n with
  | Zpos p => binary_round 53 1024 sign p 0
  | _ => S754_zero sign
  end.

(** [parseInt(string)] without a radix: leading white space is skipped, a
    sign is read, [0x] or [0X] selects radix 16 and otherwise the radix is
    10; the longest prefix of digits is the value, and there is no value
    (NaN) when that prefix is empty. *)
Definition parseInt (string : jsstring) : Number :=
  let '(sign, inputString) := stripSign (trimStart string) in
  let '(R, inputString) :=
    match inputString with
    | 48%N :: 120%N :: r => (16, r)
    | 48%N :: 88%N :: r => (16, r)
    | _ => (10, inputString)
    end in
  match digitsPrefix R inputString with
  | ([], _) => NaN
  | (digits, _) => signedInteger sign (digitsValue R digits)
  end.

(** The Number of the decimal [m * 10^e] with [m >= 0], correctly rounded:
    a product when [e >= 0], and otherwise a quotient rounded once, from
    its integer part and the location of its remainder. *)
Definition decimal (sign : bool) (m e : Z) : Number :=
  match m with
  | Zpos p =>
      if 0 <=? e then signedInteger sign (m * 10 ^ e)
      else
        let '(q, e', l) := SFdiv_core_binary 53 1024 m 0 (10 ^ (- e)) 0 in
        binary_round_aux 53 1024 sign q e' l
  | _ => S754_zero sign
  end.

(** An ExponentPart at the head of [s]: [e] or [E], an optional sign and
    at least one digit; zero when there is none. *)
Definition exponentPart (s : jsstring) : Z :=
  match s with
  | c :: r =>
      if ((c =? 101) || (c =? 69))%N then
        let '(neg, r') := stripSign r in
        match digitsPrefix 10 r' with
        | ([], _) => 0
        | (ds, _) => if neg then - digitsValue 10 ds else digitsValue 10 ds
        end
      else 0
  | [] => 0
  end.

Fixpoint isPrefixOf (p s : jsstring) : bool :=
  match p, s with
  | [], _ => true
  | a :: p', b :: s' => (a =? b)%N && isPrefixOf p' s'
  | _ :: _, [] => false
  end.

(** [parseFloat(string)]: leading white space is skipped and the longest
    prefix that is a StrDecimalLiteral is the value: a sign, then
    [Infinity] or digits with an optional fraction and exponent; NaN when
    no prefix is one. *)
Definition parseFloat (string : jsstring) : Number :=
  let '(sign, trimmed) := stripSign (trimStart string) in
  if isPrefixOf (js "Infinity") trimmed then S754_infinity sign
  else
    let '(int_digits, after_int) := digitsPrefix 10 trimmed in
    let '(frac_digits, after_frac) :=
      match after_int with
      | 46%N :: r => digitsPrefix 10 r
      | _ => ([], after_int)
      end in
    match int_digits ++ frac_digits with
    | [] => NaN
    | ds =>
        decimal sign (digitsValue 10 ds)
          (exponentPart after_frac - Z.of_nat (List.length frac_digits))
    end.

(** The Number literals of the script. *)
Definition num_10 : Number := of_Z 10.
Definition num_18 : Number := of_Z 18.
Definition num_18_5 : Number := dyadic 37 (-1).
Definition num_25 : Number := of_Z 25.
Definition num_30 : Number := of_Z 30.
Definition num_50 : Number := of_Z 50.
Definition num_100 : Number := of_Z 100.

(** ** Regular expressions *)

(** The fragment of the pattern language that the script uses, closed under
    derivatives: a class is a predicate on code units. *)
Inductive regex : Type :=
  | Empty
  | Eps
  | Class (p : N -> bool)
  | Cat (r1 r2 : regex)
  | Alt (r1 r2 : regex)
  | Star (r : regex).

(** [c], [r+]. *)
Definition Chr (c : N) : regex := Class (N.eqb c).
Definition Plus (r : regex) : regex := Cat r (Star r).

Fixpoint nullable (r : regex) : bool :=
  match r with
  | Empty => false
  | Eps => true
  | Class _ => false
  | Cat r1 r2 => nullable r1 && nullable r2
  | Alt r1 r2 => nullable r1 || nullable r2
  | Star _ => true
  end.

Fixpoint derivative (c : N) (r : regex) : regex :=
  match r with
  | Empty => Empty
  | Eps => Empty
  | Class p => if p c then Eps else Empty
  | Cat r1 r2 =>
      if nullable r1 then Alt (Cat (derivative c r1) r2) (derivative c r2)
      else Cat (derivative c r1) r2
  | Alt r1 r2 => Alt (derivative c r1) (derivative c r2)
  | Star r1 => Cat (derivative c r1) (Star r1)
  end.

(** [/^r$/.test(s)]: the whole of [s] matches [r]. *)
Definition test (r : regex) (s : jsstring) : bool :=
  nullable (fold_left (fun r c => derivative c r) s r).

(** [[^\s@]]. *)
Definition notSpaceOrAt (c : N) : bool :=
  negb (isWhiteSpace c || (c =? 64)%N).

(** [/^[^\s@]+@[^\s@]+\.[^\s@]+$/]. *)
Definition emailRegex : regex :=
  Cat (Plus (Class notSpaceOrAt))
    (Cat (Chr 64)
       (Cat (Plus (Class notSpaceOrAt))
          (Cat (Chr 46) (Plus (Class notSpaceOrAt))))).

(** ** Form fields *)

(** An input element together with what the validators reach through it:
    its [classList], its [style.borderColor] and the [textContent] of the
    first [.invalid-feedback] element under its parent node ([None] when
    the parent has none). *)
Record Element : Type := mkElement {
  value : jsstring;
  name : jsstring;
  type : jsstring;
  required : bool;
  classList : list jsstring;
  borderColor : jsstring;
  feedback : option jsstring
}.

Definition set_classList (input : Element) (l : list jsstring) : Element :=
  mkElement (value input) (name input) (type input) (required input)
    l (borderColor input) (feedback input).

Definition set_borderColor (input : Element) (c : jsstring) : Element :=
  mkElement (value input) (name input) (type input) (required input)
    (classList input) c (feedback input).

Definition set_feedback (input : Element) (t : jsstring) : Element :=
  mkElement (value input) (name input) (type input) (required input)
    (classList input) (borderColor input) (Some t).

Definition set_value (input : Element) (v : jsstring) : Element :=
  mkElement v (name input) (type input) (required input)
    (classList input) (borderColor input) (feedback input).

(** [classList.add] and [classList.remove] on the ordered set of tokens. *)
Definition classList_add (c : jsstring) (input : Element) : Element :=
  if bool_decide (c ∈ classList input) then input
  else set_classList input (classList input ++ [c]).

Definition classList_remove (c : jsstring) (input : Element) : Element :=
  set_classList input (filter (fun x => x <> c) (classList input)).

(** The text the feedback element shows: nothing when there is none. *)
Definition feedbackText (input : Element) : jsstring :=
  default [] (feedback input).

(** [createFeedbackElement]: a new, empty [.invalid-feedback] element
    appended to the parent node. *)
Definition createFeedbackElement (input : Element) : Element :=
  set_feedback input [].

(** [input.parentNode.querySelector('.invalid-feedback') ||
    createFeedbackElement(input)]. *)
Definition feedbackElement (input : Element) : Element :=
  match feedback input with
  | Some _ => input
  | None => createFeedbackElement input
  end.


Definition is_valid : jsstring := js "is-valid".
Definition is_invalid : jsstring := js "is-invalid".

Definition validateAge (input : Element) : Element :=
  let age := parseInt (value input) in
  let input := feedbackElement input in
  if js_lt age num_18 || js_gt age num_100 then
    set_feedback (classList_remove is_valid (classList_add is_invalid input))
      (js "Age must be between 18 and 100 years.")
  else if js_ge age num_18 && js_le age num_100 then
    set_feedback (classList_remove is_invalid (classList_add is_valid input))
      []
  else input.

Definition getBMICategory (bmi : Number) : jsstring :=
  if js_lt bmi num_18_5 then js "Underweight"
  else if js_lt bmi num_25 then js "Normal weight"
  else if js_lt bmi num_30 then js "Overweight"
  else js "Obese".

Definition validateBMI (input : Element) : Element :=
  let bmi := parseFloat (value input) in
  let input := feedbackElement input in
  if js_lt bmi num_10 || js_gt bmi num_50 then
    set_feedback (classList_remove is_valid (classList_add is_invalid input))
      (js "BMI must be between 10 and 50.")
  else if js_ge bmi num_10 && js_le bmi num_50 then
    let input :=
      set_feedback
        (classList_remove is_invalid (classList_add is_valid input))
        (getBMICategory bmi) in
    if js_lt bmi num_18_5 then set_borderColor input (js "#17a2b8")
    else if js_lt bmi num_25 then set_borderColor input (js "#28a745")
    else if js_lt bmi num_30 then set_borderColor input (js "#ffc107")
    else set_borderColor input (js "#dc3545")
  else input.

Definition validateEmail (input : Element) : Element :=
  let email := value input in
  let input := feedbackElement input in
  if negb (test emailRegex email) then
    set_feedback (classList_remove is_valid (classList_add is_invalid input))
      (js "Please enter a valid email address.")
  else
    set_feedback (classList_remove is_invalid (classList_add is_valid input))
      [].

(** [validateField]: the field after the call and the value returned,
    [None] for [undefined] (the three validators return nothing). *)
Definition validateField (field : Element) : Element * option bool :=
  let value := trim (value field) in
  let field := classList_remove is_invalid (classList_remove is_valid field) in
  if required field && bool_decide (value = []) then
    (classList_add is_invalid field, Some false)
  else if jsstring_eqb (name field) (js "age") then
    (validateAge field, None)
  else if jsstring_eqb (name field) (js "bmi") then
    (validateBMI field, None)
  else if jsstring_eqb (name field) (js "email") then
    (validateEmail field, None)
  else
    (if bool_decide (value = []) then field else classList_add is_valid field,
     Some true).

(** ** The page and the prediction request *)

(** What [JSON.parse] produces and [JSON.stringify] consumes.  An object is
    the list of its properties; a name is looked up from the front. *)
#[local] Unset Elimination Schemes.
Inductive json : Type :=
  | JNull
  | JBool (b : bool)
  | JNumber (x : Number)
  | JString (s : jsstring)
  | JArray (l : list json)
  | JObject (m : list (jsstring * json)).
#[local] Set Elimination Schemes.

(** A JavaScript value met by the script: [None] is [undefined]. *)
Definition jsvalue : Type := option json.

(** Evaluation that may throw. *)
Inductive completion (A : Type) : Type :=
  | Normal (a : A)
  | Throw.
Arguments Normal {A} a.
Arguments Throw {A}.

(** [data.key] for one of the three property names the script reads:
    a TypeError on [null], [undefined] on a primitive, on an array and on
    an object without that property. *)
Definition getProperty (data : json) (key : jsstring) : completion jsvalue :=
  match data with
  | JNull => Throw
  | JObject m =>
      Normal (snd <$> List.find (fun kv => jsstring_eqb (fst kv) key) m)
  | _ => Normal None
  end.

(** ToBoolean. *)
Definition truthy (v : jsvalue) : bool :=
  match v with
  | None => false
  | Some JNull => false
  | Some (JBool b) => b
  | Some (JNumber x) =>
      match x with
      | S754_zero _ | S754_nan => false
      | _ => true
      end
  | Some (JString s) => negb (bool_decide (s = []))
  | Some (JArray _) | Some (JObject _) => true
  end.

(** ToString on a parsed value throws a TypeError: on an object that has
    a property [toString] of its own, since no value of JSON can be
    called and [valueOf] of the prototype gives the object back; and on an
    array with an element on which it throws, since [join] converts every
    element other than [null].  On every other value it gives a text. *)
Fixpoint ToString_throws (v : json) : bool :=
  match v with
  | JObject m => existsb (fun kv => jsstring_eqb (fst kv) (js "toString")) m
  | JArray l => existsb ToString_throws l
  | _ => false
  end.

(** ToString gives a text for the value. *)
Definition converts (v : jsvalue) : bool :=
  match v with
  | Some j => negb (ToString_throws j)
  | None => true
  end.

(** A message as the script builds it: literal text and the values a
    template substitutes; [Subst v] stands for the text ToString gives
    for [v] (a string for itself). *)
Inductive fragment : Type :=
  | Text (s : jsstring)
  | Subst (v : jsvalue).

Definition Message : Type := list fragment.

(** A template literal: ToString on each value it substitutes, and a
    TypeError when one of them throws. *)
Definition templateLiteral (parts : Message) : completion Message :=
  if forallb (fun part => match part with
                          | Text _ => true
                          | Subst v => converts v
                          end) parts
  then Normal parts
  else Throw.

(** An alert of the page: the class of the [div], the icon and the message
    of its [innerHTML]. *)
Record Alert : Type := mkAlert {
  className : jsstring;
  icon : jsstring;
  message : Message
}.

(** The request [fetch] sends; [body] is the value whose JSON text is the
    body. *)
Record Request : Type := mkRequest {
  url : jsstring;
  method : jsstring;
  contentType : jsstring;
  body : json
}.

(** What can go wrong between [fetch] and the parsed data. *)
Inductive Failure : Type :=
  | NetworkError
  | SyntaxError
  | TypeError.

(** The page: the fields of its form, the alerts at the head of the first
    [.container] element ([None] when the page has no such element), the
    requests sent so far, what [console.error] has logged and the alerts
    with a pending five-second timer. *)
Record Page : Type := mkPage {
  fields : list Element;
  container : option (list Alert);
  requests : list Request;
  console : list Failure;
  timers : list (Z * Alert)
}.

(** [showMessage(message, type)]: the template of [innerHTML] converts
    the message, which throws before the page is touched when the message
    has no text; then the alert is put in front of the container's
    children, with its timer, only when the page has a container. *)
Definition showMessage (page : Page) (message : Message) (type : jsstring)
    : completion Page :=
  match templateLiteral message with
  | Throw => Throw
  | Normal message =>
      let alertDiv :=
        mkAlert
          (js "alert alert-" ++ type ++ js " alert-dismissible fade show")
          (if jsstring_eqb type (js "success") then js "check-circle"
           else js "exclamation-triangle")
          message in
      match container page with
      | Some children =>
          Normal
            (mkPage (fields page) (Some (alertDiv :: children))
               (requests page) (console page)
               (timers page ++ [(5000, alertDiv)]))
      | None => Normal page
      end
  end.

Definition showSuccessMessage (page : Page) (message : Message)
    : completion Page :=
  showMessage page message (js "success").

Definition showErrorMessage (page : Page) (message : Message)
    : completion Page :=
  showMessage page message (js "danger").

Definition console_error (page : Page) (error : Failure) : Page :=
  mkPage (fields page) (container page) (requests page)
    (console page ++ [error]) (timers page).

(** The request of [submitPredictionAJAX]. *)
Definition predictRequest (formData : json) : Request :=
  mkRequest (js "/user/api/predict") (js "POST") (js "application/json")
    formData.

(** The call of [fetch] in [submitPredictionAJAX]: the request goes out. *)
Definition fetchPredict (page : Page) (formData : json) : Page :=
  mkPage (fields page) (container page)
    (requests page ++ [predictRequest formData]) (console page)
    (timers page).

(** How the promise of [fetch] and of [response.json()] ends. *)
Inductive Response : Type :=
  | Rejected
  | NotJSON
  | Parsed (data : json).

(** The [catch] handler: the page then and the value it returns. *)
Definition onError (page : Page) (error : Failure)
    : completion (Page * jsvalue) :=
  match showErrorMessage page [Text (js "Network error occurred")] with
  | Throw => Throw
  | Normal page => Normal (console_error page error, None)
  end.

(** The second [then] handler: the page then and the value it returns.
    It throws when [data] is [null] and when the value to show has no
    text, in both cases before the page is touched. *)
Definition onData (page : Page) (data : json)
    : completion (Page * jsvalue) :=
  match getProperty data (js "success") with
  | Throw => Throw
  | Normal success =>
      if truthy success then
        match getProperty data (js "formatted_prediction") with
        | Throw => Throw
        | Normal formatted_prediction =>
            match templateLiteral [Text (js "Predicted Premium: ");
                                   Subst formatted_prediction] with
            | Throw => Throw
            | Normal message =>
                match showSuccessMessage page message with
                | Throw => Throw
                | Normal page => Normal (page, Some data)
                end
            end
        end
      else
        match getProperty data (js "error") with
        | Throw => Throw
        | Normal error =>
            match showErrorMessage page
                    [if truthy error then Subst error
                     else Text (js "Prediction failed")] with
            | Throw => Throw
            | Normal page => Normal (page, Some data)
            end
        end
  end.

(** The handlers of [submitPredictionAJAX] once the response is there: the
    page then, and how the returned promise settles: [Normal v] when it
    resolves to [v], [Throw] when it rejects.  What [fetch], [json()] or
    the [then] handler throws goes to the [catch] handler. *)
Definition settlePredict (page : Page) (r : Response)
    : Page * completion jsvalue :=
  let handled : Failure + Page * jsvalue :=
    match r with
    | Rejected => inl NetworkError
    | NotJSON => inl SyntaxError
    | Parsed data =>
        match onData page data with
        | Throw => inl TypeError
        | Normal result => inr result
        end
    end in
  match handled with
  | inr (page, v) => (page, Normal v)
  | inl error =>
      match onError page error with
      | Throw => (page, Throw)
      | Normal (page, v) => (page, Normal v)
      end
  end.

(** [submitPredictionAJAX(formData)] with its response, nothing else
    running in between. *)
Definition submitPredictionAJAX (page : Page) (formData : json)
    (r : Response) : Page * completion jsvalue :=
  settlePredict (fetchPredict page formData) r.

(** ** Executions of the client *)

(** What happens on a page that has loaded the script: the user edits the
    [i]-th field, which fires its [input] listeners; the page calls
    [validateField] on the [i]-th field; the page calls
    [submitPredictionAJAX]; a response arrives. *)
Inductive Action : Type :=
  | InputEvent (i : nat) (v : jsstring)
  | CallValidateField (i : nat)
  | CallSubmitPredictionAJAX (formData : json)
  | ResponseArrives (r : Response).

(** The listeners [initializeFormValidations] attaches, in its order. *)
Definition onInput (input : Element) : Element :=
  let input :=
    if jsstring_eqb (name input) (js "age") then validateAge input
    else input in
  let input :=
    if jsstring_eqb (name input) (js "bmi") then validateBMI input
    else input in
  if jsstring_eqb (type input) (js "email") then validateEmail input
  else input.

Definition update_field (page : Page) (i : nat) (f : Element -> Element)
    : Page :=
  mkPage (alter f i (fields page)) (container page) (requests page)
    (console page) (timers page).

Definition step (page : Page) (a : Action) : Page :=
  match a with
  | InputEvent i v => update_field page i (fun e => onInput (set_value e v))
  | CallValidateField i => update_field page i (fun e => (validateField e).1)
  | CallSubmitPredictionAJAX formData => fetchPredict page formData
  | ResponseArrives r => (settlePredict page r).1
  end.

Definition run (page : Page) (trace : list Action) : Page :=
  fold_left step trace page.

(** A field is invalid under [validateField] when the call flags it. *)
Definition invalid (field : Element) : Prop :=
  is_invalid ∈ classList (validateField field).1.

(** ** What a validator leaves on a field *)

(** The two conditions of [validateAge] and [validateBMI] on the parsed
    value: below [lo] or above [hi]; at least [lo] and at most [hi]. *)
Definition out_of_range (lo hi x : Number) : bool :=
  js_lt x lo || js_gt x hi.

Definition in_range (lo hi x : Number) : bool :=
  js_ge x lo && js_le x hi.

(** The field carries the class [on] and not the class [off], the feedback
    element shows [text], and the value is the one typed. *)
Definition marked (on off text : jsstring) (before after : Element) : Prop :=
  (on ∈ classList after) /\ (off ∉ classList after) /\
  feedback after = Some text /\ value after = value before.

Definition marked_invalid : jsstring -> Element -> Element -> Prop :=
  marked is_invalid is_valid.

Definition marked_valid : jsstring -> Element -> Element -> Prop :=
  marked is_valid is_invalid.

(** The shape [local@domain.tld]: three non-empty parts without white space
    or [@], the first two separated by [@] and the last two by a dot. *)
Definition email_part (s : jsstring) : Prop :=
  s <> [] /\ Forall (fun c => notSpaceOrAt c = true) s.

Definition email_shape (s : jsstring) : Prop :=
  exists local domain tld,
    s = local ++ [64%N] ++ domain ++ [46%N] ++ tld /\
    email_part local /\ email_part domain /\ email_part tld.

(** The strings a regular expression denotes. *)
Inductive matches : regex -> jsstring -> Prop :=
  | matches_Eps : matches Eps []
  | matches_Class p c : p c = true -> matches (Class p) [c]
  | matches_Cat r1 r2 s1 s2 :
      matches r1 s1 -> matches r2 s2 -> matches (Cat r1 r2) (s1 ++ s2)
  | matches_Alt_l r1 r2 s : matches r1 s -> matches (Alt r1 r2) s
  | matches_Alt_r r1 r2 s : matches r2 s -> matches (Alt r1 r2) s
  | matches_Star_nil r : matches (Star r) []
  | matches_Star_app r s1 s2 :
      matches r s1 -> matches (Star r) s2 -> matches (Star r) (s1 ++ s2).

(** The two kinds of alert [showMessage] builds. *)
Definition alert_success (message : Message) : Alert :=
  mkAlert (js "alert alert-success alert-dismissible fade show")
    (js "check-circle") message.

Definition alert_danger (message : Message) : Alert :=
  mkAlert (js "alert alert-danger alert-dismissible fade show")
    (js "exclamation-triangle") message.

(** The [then] handler gets through with [data]: [data] is not [null],
    and the value it shows has a text, which is [formatted_prediction]
    when [success] is truthy, and [error] when [success] is falsy and
    [error] truthy. *)
Definition answered (data : json) : bool :=
  match getProperty data (js "success"),
        getProperty data (js "formatted_prediction"),
        getProperty data (js "error") with
  | Normal success, Normal formatted_prediction, Normal error =>
      if truthy success then converts formatted_prediction
      else negb (truthy error) || converts error
  | _, _, _ => false
  end.

(** The error that reaches the [catch] handler, if any: the call failed,
    the body was not JSON, or the [then] handler did not get through. *)
Definition caught (r : Response) : option Failure :=
  match r with
  | Rejected => Some NetworkError
  | NotJSON => Some SyntaxError
  | Parsed data => if answered data then None else Some TypeError
  end.

(** ** Further vocabulary for the validators *)

(** The classes of a field that are not validation flags, in their order. *)
Definition other_classes (l : list jsstring) : list jsstring :=
  filter (fun c => c <> is_valid /\ c <> is_invalid) l.

(** What a validator has no business with: the value, the name, the type
    and the required attribute of the field, and its other classes. *)
Definition same_field (before after : Element) : Prop :=
  value after = value before /\ name after = name before /\
  type after = type before /\ required after = required before /\
  other_classes (classList after) = other_classes (classList before).

(** The field carries both validation flags. *)
Definition both_flags (field : Element) : Prop :=
  (is_valid ∈ classList field) /\ (is_invalid ∈ classList field).

(** The field carries no validation flag. *)
Definition no_flag (field : Element) : Prop :=
  (is_valid ∉ classList field) /\ (is_invalid ∉ classList field).

(** A value that is empty or white space only. *)
Definition blank (v : jsstring) : Prop := trim v = [].

(** The border colour [validateBMI] gives a value in range. *)
Definition bmi_colour (bmi : Number) : jsstring :=
  if js_lt bmi num_18_5 then js "#17a2b8"
  else if js_lt bmi num_25 then js "#28a745"
  else if js_lt bmi num_30 then js "#ffc107"
  else js "#dc3545".

(** The field without its validation flags, as [validateField] first makes
    it. *)
Definition strip (field : Element) : Element :=
  classList_remove is_invalid (classList_remove is_valid field).

(** ** Further vocabulary for executions *)

(** The requests of the calls of [submitPredictionAJAX] in a trace, in
    their order. *)
Definition submissions (trace : list Action) : list Request :=
  omap (fun a => match a with
                 | CallSubmitPredictionAJAX formData =>
                     Some (predictRequest formData)
                 | _ => None
                 end) trace.

(** An action that does not reach the fields of the form. *)
Definition leaves_fields (a : Action) : bool :=
  match a with
  | CallSubmitPredictionAJAX _ | ResponseArrives _ => true
  | InputEvent _ _ | CallValidateField _ => false
  end.

(** ** Further vocabulary for the database *)

(** The two [UNIQUE] columns of [users]: no two rows share a [username],
    and no two rows share an [email]. *)
Definition unique_users (s : Store) : Prop :=
  forall i j u v,
    users_table s !! i = Some u -> users_table s !! j = Some v ->
    users.username u = users.username v \/ users.email u = users.email v ->
    i = j.

(** A sequence of statements, run from left to right. *)
Definition execute_all (email_first : bool) (s : Store)
    (sts : list Statement) : Store :=
  fold_left (execute email_first) sts s.

(** ** Password visibility *)

(** [classList.add] and [classList.remove] on the tokens themselves. *)
Definition tokens_add (c : jsstring) (l : list jsstring) : list jsstring :=
  if bool_decide (c ∈ l) then l else l ++ [c].

Definition tokens_remove (c : jsstring) (l : list jsstring) : list jsstring :=
  filter (fun x => x <> c) l.

Definition set_type (input : Element) (t : jsstring) : Element :=
  mkElement (value input) (name input) t (required input)
    (classList input) (borderColor input) (feedback input).

(** The click listener that [togglePasswordVisibility] attaches to the
    button when the button and the input both exist.  [icon] is the class
    list of the first [i] element in the button, [None] when
    [this.querySelector('i')] is [null].  The type is switched first;
    without an icon the listener then throws. *)
Definition togglePasswordVisibility_click
    (input : Element) (icon : option (list jsstring))
    : Element * option (list jsstring) * completion unit :=
  if jsstring_eqb (type input) (js "password") then
    match icon with
    | Some classes =>
        (set_type input (js "text"),
         Some (tokens_add (js "fa-eye-slash")
                 (tokens_remove (js "fa-eye") classes)),
         Normal tt)
    | None => (set_type input (js "text"), None, Throw)
    end
  else
    match icon with
    | Some classes =>
        (set_type input (js "password"),
         Some (tokens_add (js "fa-eye")
                 (tokens_remove (js "fa-eye-slash") classes)),
         Normal tt)
    | None => (set_type input (js "password"), None, Throw)
    end.

(** The icon shows the open eye: [fa-eye] and not [fa-eye-slash]. *)
Definition shows_eye (icon : option (list jsstring)) : Prop :=
  exists classes, icon = Some classes /\
    (js "fa-eye" ∈ classes) /\ (js "fa-eye-slash" ∉ classes).

(** The icon shows the struck eye: [fa-eye-slash] and not [fa-eye]. *)
Definition shows_eye_slash (icon : option (list jsstring)) : Prop :=
  exists classes, icon = Some classes /\
    (js "fa-eye-slash" ∈ classes) /\ (js "fa-eye" ∉ classes).

(** ** The loading overlay *)

(** An element of the document: its id, class and inline style, the
    markup a script has set as its [innerHTML], and its child elements.
    The elements that markup creates are not followed: in tree order they
    come after the element that holds them. *)
#[local] Unset Elimination Schemes.
Inductive Node : Type :=
  | Elt (id : jsstring) (className : jsstring)
      (style : list (jsstring * jsstring)) (innerHTML : jsstring)
      (children : list Node).
#[local] Set Elimination Schemes.

Definition node_id (n : Node) : jsstring :=
  match n with Elt id _ _ _ _ => id end.

(** The first element of the forest [l] in tree order that [here] accepts
    or that [below] finds under an element. *)
Fixpoint first_in {A} (here : Node -> bool) (below : Node -> option A)
    (found : Node -> A) (l : list Node) : option A :=
  match l with
  | [] => None
  | n :: r =>
      if here n then Some (found n)
      else match below n with
           | Some a => Some a
           | None => first_in here below found r
           end
  end.

(** The first element with the id [id] under [n], in tree order. *)
Fixpoint findById (id : jsstring) (n : Node) : option Node :=
  match n with
  | Elt _ _ _ _ children =>
      first_in (fun x => jsstring_eqb (node_id x) id) (findById id)
        (fun x => x) children
  end.

(** [document.getElementById(id)] on the children of [body]; [body] itself
    and the elements outside it are taken not to carry the id. *)
Definition getElementById (id : jsstring) (body : list Node) : option Node :=
  first_in (fun x => jsstring_eqb (node_id x) id) (findById id)
    (fun x => x) body.

(** The forest [l] without the first element that [here] accepts or that
    [below] removes under an element; [None] when there is none. *)
Fixpoint remove_first (here : Node -> bool) (below : Node -> option Node)
    (l : list Node) : option (list Node) :=
  match l with
  | [] => None
  | n :: r =>
      if here n then Some r
      else match below n with
           | Some n' => Some (n' :: r)
           | None => cons n <$> remove_first here below r
           end
  end.

(** [n] without the first element with the id [id] under it. *)
Fixpoint removeUnder (id : jsstring) (n : Node) : option Node :=
  match n with
  | Elt i c s h children =>
      Elt i c s h
        <$> remove_first (fun x => jsstring_eqb (node_id x) id)
              (removeUnder id) children
  end.

(** [overlay.remove()] for the element [getElementById(id)] returns. *)
Definition removeById (id : jsstring) (body : list Node)
    : option (list Node) :=
  remove_first (fun x => jsstring_eqb (node_id x) id) (removeUnder id) body.

Definition overlay_markup (text : jsstring) : jsstring :=
  [10%N] ++ js "        <div class=" ++ [34%N]
  ++ js "bg-white p-4 rounded text-center" ++ [34%N] ++ js ">" ++ [10%N]
  ++ js "            <div class=" ++ [34%N]
  ++ js "spinner-border text-primary mb-3" ++ [34%N] ++ js " role="
  ++ [34%N] ++ js "status" ++ [34%N] ++ js "></div>" ++ [10%N]
  ++ js "            <p class=" ++ [34%N] ++ js "mb-0" ++ [34%N] ++ js ">"
  ++ text ++ js "</p>" ++ [10%N]
  ++ js "        </div>" ++ [10%N] ++ js "    ".

(** The element [showLoadingOverlay] creates. *)
Definition loadingOverlay (text : jsstring) : Node :=
  Elt (js "loadingOverlay")
    (js "position-fixed top-0 start-0 w-100 h-100 d-flex "
     ++ js "align-items-center justify-content-center")
    [(js "backgroundColor", js "rgba(0,0,0,0.5)"); (js "zIndex", js "9999")]
    (overlay_markup text) [].

(** [showLoadingOverlay(text)]; [None] is the call without an argument. *)
Definition showLoadingOverlay (text : option jsstring) (body : list Node)
    : list Node :=
  body ++ [loadingOverlay (default (js "Loading...") text)].

Definition hideLoadingOverlay (body : list Node) : list Node :=
  match getElementById (js "loadingOverlay") body with
  | Some _ => default body (removeById (js "loadingOverlay") body)
  | None => body
  end.

(** ** Export to CSV *)

(** [data.includes(c)] for a one-character string. *)
Definition includes (c : N) (data : jsstring) : bool :=
  existsb (N.eqb c) data.

(** [data.replace] of every quote by two quotes. *)
Definition doubleQuotes (data : jsstring) : jsstring :=
  flat_map (fun c => if (c =? 34)%N then [34%N; 34%N] else [c]) data.

(** [Array.prototype.join]. *)
Fixpoint join (sep : jsstring) (l : list jsstring) : jsstring :=
  match l with
  | [] => []
  | [x] => x
  | x :: r => x ++ sep ++ join sep r
  end.

(** The text of one cell in the file. *)
Definition csvCell (textContent : jsstring) : jsstring :=
  let data := trim textContent in
  if includes 44 data || includes 34 data
  then [34%N] ++ doubleQuotes data ++ [34%N]
  else data.

Definition csvRow (cols : list jsstring) : jsstring :=
  join [44%N] (csvCell <$> cols).

Definition csvContent (rows : list (list jsstring)) : jsstring :=
  join [10%N] (csvRow <$> rows).

(** The file the browser is made to download. *)
Record Download : Type := mkDownload {
  blob_content : jsstring;
  blob_type : jsstring;
  download : jsstring
}.

(** [exportTableToCSV(tableId, filename)].  [table] is what
    [getElementById(tableId)] finds: [None] when there is no such
    element, otherwise its [tr] elements in document order, each with
    the [textContent] of its [td] and [th] elements.  [filename] is
    [None] when the argument is left out. *)
Definition exportTableToCSV (table : option (list (list jsstring)))
    (filename : option jsstring) : option Download :=
  match table with
  | None => None
  | Some rows =>
      Some (mkDownload (csvContent rows) (js "text/csv")
              (default (js "data.csv") filename))
  end.

(** A reader of comma-separated values: fields end at a comma, records at
    a line feed; a field that starts with a quote runs to the next quote
    that is not doubled, and a doubled quote in it is one quote. *)
Inductive csv_state : Type :=
  | FieldStart
  | Unquoted
  | Quoted
  | QuoteSeen.

Fixpoint readCSV_from (st : csv_state) (field : jsstring)
    (record : list jsstring) (records : list (list jsstring))
    (s : jsstring) : list (list jsstring) :=
  match s with
  | [] => records ++ [record ++ [field]]
  | c :: r =>
      match st with
      | Quoted =>
          if (c =? 34)%N then readCSV_from QuoteSeen field record records r
          else readCSV_from Quoted (field ++ [c]) record records r
      | _ =>
          if (c =? 44)%N then
            readCSV_from FieldStart [] (record ++ [field]) records r
          else if (c =? 10)%N then
            readCSV_from FieldStart [] [] (records ++ [record ++ [field]]) r
          else if (c =? 34)%N then
            match st with
            | FieldStart => readCSV_from Quoted [] record records r
            | QuoteSeen =>
                readCSV_from Quoted (field ++ [c]) record records r
            | _ => readCSV_from Unquoted (field ++ [c]) record records r
            end
          else readCSV_from Unquoted (field ++ [c]) record records r
      end
  end.

Definition readCSV (s : jsstring) : list (list jsstring) :=
  readCSV_from FieldStart [] [] [] s.

(** A cell the file can carry: a line feed in it comes with a comma or a
    quote, which makes the cell a quoted one. *)
Definition exportable (textContent : jsstring) : Prop :=
  10%N ∈ trim textContent ->
  (44%N ∈ trim textContent) \/ (34%N ∈ trim textContent).

(** The cells of a table as the file carries them: trimmed. *)
Definition trimmedRow (cols : list jsstring) : list jsstring :=
  fmap (M:=list) trim cols.

Definition trimmedRows (rows : list (list jsstring))
    : list (list jsstring) :=
  fmap (M:=list) trimmedRow rows.

(** The same, computed. *)
Definition exportableb (textContent : jsstring) : bool :=
  negb (includes 10 (trim textContent))
  || includes 44 (trim textContent) || includes 34 (trim textContent).

Definition readable_table (rows : list (list jsstring)) : bool :=
  forallb (fun cols => negb (bool_decide (cols = []))
                       && forallb exportableb cols) rows.

(** ** Numbers to and from text *)

(** The text after an ExponentPart at the head of [s]; [s] itself when
    there is none. *)
Definition afterExponent (s : jsstring) : jsstring :=
  match s with
  | c :: r =>
      if ((c =? 101) || (c =? 69))%N then
        match digitsPrefix 10 (stripSign r).2 with
        | ([], _) => s
        | (_, rest) => rest
        end
      else s
  | [] => []
  end.

(** The text after the longest prefix of [s] that is a StrDecimalLiteral;
    [None] when no prefix is one.  [parseFloat] reads the same prefix. *)
Definition afterStrDecimalLiteral (s : jsstring) : option jsstring :=
  let '(_, unsigned) := stripSign s in
  if isPrefixOf (js "Infinity") unsigned then Some (drop 8 unsigned)
  else
    let '(int_digits, after_int) := digitsPrefix 10 unsigned in
    let '(frac_digits, after_frac) :=
      match after_int with
      | 46%N :: r => digitsPrefix 10 r
      | _ => ([], after_int)
      end in
    match int_digits ++ frac_digits with
    | [] => None
    | _ => Some (afterExponent after_frac)
    end.

(** A NonDecimalIntegerLiteral without its prefix: digits of the radix and
    nothing else. *)
Definition nonDecimalIntegerLiteral (R : Z) (digits : jsstring) : Number :=
  match digitsPrefix R digits with
  | ([], _) => NaN
  | (ds, []) => signedInteger false (digitsValue R ds)
  | (_, _ :: _) => NaN
  end.

(** ToNumber on a string (StringToNumber): white space at both ends is
    dropped; what is left is empty, which is zero, or a decimal literal or
    a binary, octal or hexadecimal integer, and anything else is NaN. *)
Definition StringToNumber (str : jsstring) : Number :=
  let literal := trim str in
  let decimalLiteral :=
    match afterStrDecimalLiteral literal with
    | Some [] => parseFloat literal
    | _ => NaN
    end in
  match literal with
  | [] => S754_zero false
  | 48%N :: c :: digits =>
      if ((c =? 120) || (c =? 88))%N then nonDecimalIntegerLiteral 16 digits
      else if ((c =? 111) || (c =? 79))%N then
        nonDecimalIntegerLiteral 8 digits
      else if ((c =? 98) || (c =? 66))%N then nonDecimalIntegerLiteral 2 digits
      else decimalLiteral
  | _ => decimalLiteral
  end.

(** [/] and [*] on Numbers. *)
Definition js_div (a b : Number) : Number := SFdiv 53 1024 a b.
Definition js_mul (a b : Number) : Number := SFmul 53 1024 a b.

(** The decimal digits of a non-negative integer. *)
Fixpoint decimalDigits_fuel (fuel : nat) (n : Z) : jsstring :=
  match fuel with
  | O => []
  | S fuel' =>
      if n <? 10 then [Z.to_N (48 + n)]
      else decimalDigits_fuel fuel' (n / 10) ++ [Z.to_N (48 + n mod 10)]
  end.

Definition decimalDigits (n : Z) : jsstring :=
  decimalDigits_fuel (S (Z.to_nat (Z.log2 n))) n.

(** The decimal representation Number::toString picks for a Number of
    integer value [X] with [n] digits, tried with [k] significant digits:
    the digits [s] and the number of digits of the integer part, when
    [s * 10^(n-k)] rounds to [x]; of the two candidates around [X] the
    nearer, and the even one when they are as near. *)
Definition shortest_at (x : Number) (X n k : Z) : option (Z * Z) :=
  let scale := 10 ^ (n - k) in
  let lo := X / scale in
  let hi := lo + 1 in
  let ok s := SFeqb (signedInteger false (s * scale)) x in
  let pick s := if s =? 10 ^ k then (10 ^ (k - 1), n + 1) else (s, n) in
  match ok lo, ok hi with
  | true, true =>
      let dlo := X - lo * scale in
      let dhi := hi * scale - X in
      if dlo <? dhi then Some (pick lo)
      else if dhi <? dlo then Some (pick hi)
      else Some (pick (if Z.even lo then lo else hi))
  | true, false => Some (pick lo)
  | false, true => Some (pick hi)
  | false, false => None
  end.

(** The first [k] from [k] on, [fuel] tries long, that gives a
    representation. *)
Fixpoint shortest_from (fuel : nat) (x : Number) (X n k : Z)
    : option (Z * Z * Z) :=
  match fuel with
  | O => None
  | S fuel' =>
      match shortest_at x X n k with
      | Some (s, n') => Some (s, n', k)
      | None => shortest_from fuel' x X n (k + 1)
      end
  end.

(** The exponential form [d.ddde+nn] of the digits [s] with [n] digits
    before the point. *)
Definition exponentialForm (s n : Z) : jsstring :=
  match decimalDigits s with
  | [d] => [d] ++ js "e+" ++ decimalDigits (n - 1)
  | d :: ds => [d] ++ js "." ++ ds ++ js "e+" ++ decimalDigits (n - 1)
  | [] => []
  end.

(** Number::toString for a positive Number of integer value [X], at least
    [10^21]: the exponential form of its shortest representation, which
    has at most seventeen digits (all the digits of [X] otherwise). *)
Definition NumberToString_exponential (x : Number) (X : Z) : jsstring :=
  let n := Z.of_nat (List.length (decimalDigits X)) in
  match shortest_from 17 x X n 1 with
  | Some (s, n', _) => exponentialForm s n'
  | None => exponentialForm X n
  end.

(** The digits of [n] with a point before the last [f]. *)
Definition fixedDigits (n : Z) (f : nat) : jsstring :=
  let m := decimalDigits n in
  let m := replicate (S f - List.length m) 48%N ++ m in
  match f with
  | O => m
  | _ => take (List.length m - f) m ++ js "." ++ drop (List.length m - f) m
  end.

(** [x.toFixed(f)] for [0 <= f <= 100]. *)
Definition toFixed (x : Number) (f : nat) : jsstring :=
  match x with
  | S754_nan => js "NaN"
  | S754_infinity false => js "Infinity"
  | S754_infinity true => js "-Infinity"
  | S754_zero _ => fixedDigits 0 f
  | S754_finite sign m e =>
      (if sign then js "-" else [])
      ++ (if 0 <=? e then
            if 10 ^ 21 <=? Zpos m * 2 ^ e then
              NumberToString_exponential (S754_finite false m e)
                (Zpos m * 2 ^ e)
            else fixedDigits (Zpos m * 2 ^ e * 10 ^ Z.of_nat f) f
          else
            if 10 ^ 21 * 2 ^ (- e) <=? Zpos m then
              NumberToString_exponential (S754_finite false m e)
                (Zpos m / 2 ^ (- e))
            else
              fixedDigits
                ((2 * Zpos m * 10 ^ Z.of_nat f + 2 ^ (- e))
                 / (2 * 2 ^ (- e))) f)
  end.

(** ** The BMI calculator *)

(** What [calculateBMI] reaches in the document: the values of the
    elements [height] and [weight] ([None] when the element is missing),
    the [innerHTML] of the element [bmiResult] and the input [bmi] of the
    main form (each [None] when missing).  The value of an input is the
    text assigned to it. *)
Record Calculator : Type := mkCalculator {
  height : option jsstring;
  weight : option jsstring;
  resultDiv : option jsstring;
  bmiInput : option Element
}.

(** The class of the colour of a BMI, read from its text. *)
Definition colorClass (bmi : jsstring) : jsstring :=
  if js_lt (StringToNumber bmi) num_18_5 then js "text-info"
  else if js_lt (StringToNumber bmi) num_25 then js "text-success"
  else if js_lt (StringToNumber bmi) num_30 then js "text-warning"
  else js "text-danger".

(** The BMI as [calculateBMI] computes it from the two texts. *)
Definition computedBMI (height weight : jsstring) : jsstring :=
  let heightM := js_div (StringToNumber height) (of_Z 100) in
  toFixed (js_div (StringToNumber weight) (js_mul heightM heightM)) 1.

Definition bmiResultMarkup (colorClass bmi category : jsstring) : jsstring :=
  js "<strong>Your BMI: <span class=" ++ [34%N] ++ colorClass ++ [34%N]
  ++ js ">" ++ bmi ++ js "</span> (" ++ category ++ js ")</strong>".

Definition bmiMissingMarkup : jsstring :=
  js "<span class=" ++ [34%N] ++ js "text-danger" ++ [34%N]
  ++ js ">Please enter both height and weight</span>".

Definition nonEmpty (v : option jsstring) : bool :=
  match v with
  | Some (_ :: _) => true
  | _ => false
  end.

Definition calculateBMI (doc : Calculator) : Calculator :=
  if nonEmpty (height doc) && nonEmpty (weight doc) then
    let bmi :=
      computedBMI (default [] (height doc)) (default [] (weight doc)) in
    let category := getBMICategory (parseFloat bmi) in
    match resultDiv doc with
    | Some _ =>
        mkCalculator (height doc) (weight doc)
          (Some (bmiResultMarkup (colorClass bmi) bmi category))
          (match bmiInput doc with
           | Some input => Some (validateBMI (set_value input bmi))
           | None => None
           end)
    | None => doc
    end
  else
    match resultDiv doc with
    | Some _ =>
        mkCalculator (height doc) (weight doc) (Some bmiMissingMarkup)
          (bmiInput doc)
    | None => doc
    end.

(** *** The shapes of the text of a Number *)

Definition isDigit (c : N) : bool := ((48 <=? c) && (c <=? 57))%N.

Definition digits (s : jsstring) : Prop :=
  s <> [] /\ Forall (fun c => isDigit c = true) s.

(** [ddd.d]: digits, a point, digits. *)
Definition fixed_form (s : jsstring) : Prop :=
  exists a b, s = a ++ [46%N] ++ b /\ digits a /\ digits b.

(** [de+nn] or [d.ddde+nn]. *)
Definition exponential_form (s : jsstring) : Prop :=
  exists d ex,
    isDigit d = true /\ digits ex /\
    (s = [d] ++ [101%N; 43%N] ++ ex \/
     exists ds, digits ds /\ s = [d] ++ [46%N] ++ ds ++ [101%N; 43%N] ++ ex).

(** The text of a Number that is not NaN or infinite: a sign or none,
    then one of the two forms. *)
Definition numeric_text (s : jsstring) : Prop :=
  exists sign body,
    s = sign ++ body /\ (sign = [] \/ sign = [45%N]) /\
    (fixed_form body \/ exponential_form body).

(** The class of the colour and the category go together. *)
Definition colour_of_category (colour category : jsstring) : Prop :=
  (colour = js "text-info" /\ category = js "Underweight") \/
  (colour = js "text-success" /\ category = js "Normal weight") \/
  (colour = js "text-warning" /\ category = js "Overweight") \/
  (colour = js "text-danger" /\ category = js "Obese").

(** Where the digits stop. *)
Definition stops (rest : jsstring) : Prop :=
  match rest with
  | [] => True
  | c :: _ => isDigit c = false
  end.

(** The code units that follow a leading zero in the text of a Number. *)
Definition after_zero (c : N) : Prop :=
  isDigit c = true \/ c = 46%N \/ c = 101%N.

(** ** Sample data *)

Definition sample_attributes : Attributes :=
  mkAttributes 45 "female" (dyadic 45 (-1)) 2 "no" "southwest".

(** One registered user. *)
Definition store_alice : Store :=
  (createUser false empty_store "alice" "alice@example.org" "pbkdf2:1" 100).1.

(** Two users with one prediction each. *)
Definition store_two_users : Store :=
  execute false
    (execute false
       (execute false
          (execute false empty_store
             (CreateUser "alice" "alice@example.org" "pbkdf2:1" 100))
          (CreateUser "bob" "bob@example.org" "pbkdf2:2" 110))
       (RecordPrediction 1 sample_attributes (of_Z 4200) 120))
    (RecordPrediction 2 sample_attributes (of_Z 9100) 130).

(** A required field of the prediction form, as the page loads it. *)
Definition form_field (name type value : jsstring) : Element :=
  mkElement value name type true [js "form-control"] [] None.

Definition age_field (value : jsstring) : Element :=
  form_field (js "age") (js "number") value.

Definition bmi_field (value : jsstring) : Element :=
  form_field (js "bmi") (js "number") value.

Definition email_field (value : jsstring) : Element :=
  form_field (js "email") (js "email") value.

(** A page whose form has a blank, required age field, after the page has
    called [validateField] on it. *)
Definition page_blank_age : Page :=
  mkPage [(validateField (age_field [])).1] (Some []) [] [] [].

(** A page without a [.container] element. *)
Definition page_without_container : Page := mkPage [] None [] [] [].

Definition sample_formData : json :=
  JObject [(js "age", JNumber (of_Z 45)); (js "gender", JString (js "female"));
           (js "bmi", JNumber (dyadic 45 (-1)));
           (js "children", JNumber (of_Z 2));
           (js "smoker", JString (js "no"));
           (js "region", JString (js "southwest"))].

Definition response_success : json :=
  JObject [(js "success", JBool true);
           (js "formatted_prediction", JString (js "$4,200.00"))].

Definition response_empty_error : json :=
  JObject [(js "success", JBool false); (js "error", JString [])].

(** A successful response whose [formatted_prediction] is an object with
    a property [toString]. *)
Definition response_no_text : json :=
  JObject [(js "success", JBool true);
           (js "formatted_prediction",
            JObject [(js "toString", JNumber (of_Z 1))])].

Definition response_error : json :=
  JObject [(js "success", JBool false);
           (js "error", JString (js "Model not loaded"))].

(** A table with a header row, a cell with a comma, a cell with quotes and
    a cell with a quoted line break. *)
Definition sample_table : list (list jsstring) :=
  [[js " Name "; js "Premium"];
   [js "Doe, Jane"; js "4,200.00"];
   [js "the " ++ [34%N] ++ js "smoker" ++ [34%N] ++ js " case";
    js "line one," ++ [10%N] ++ js "line two"]].

Definition sample_calculator : Calculator :=
  mkCalculator (Some (js "170")) (Some (js "65")) (Some [])
    (Some (bmi_field [])).

(** A blank age field that carries both flags. *)
Definition field_both_flags : Element :=
  mkElement [] (js "age") (js "number") false [is_valid; is_invalid] []
    None.

(** * Properties of the persistence layer *)

Section StoreProperties.

Implicit Types (s : Store) (st : Statement).

(** [AUTOINCREMENT] hands out a key the table does not have. *)
Lemma autoincrement_fresh {A} (table : gmap Z A) (seq : Z) :
  table !! autoincrement table seq = None.
Proof.
  unfold autoincrement.
  assert (forall k, is_Some (table !! k) ->
            k <= map_fold (fun k _ acc => Z.max k acc) seq table) as Hmax.
  { apply (map_fold_weak_ind
             (fun r (m : gmap Z A) => forall k, is_Some (m !! k) -> k <= r)).
    - intros k [x Hx]. by rewrite lookup_empty in Hx.
    - intros i x m r Hi IH k [y Hy].
      apply lookup_insert_Some in Hy as [[<- _]|[_ Hy]]; [lia|].
      specialize (IH k (ex_intro _ y Hy)). lia. }
  destruct (table !! Z.succ _) eqn:E; [|reflexivity].
  specialize (Hmax _ (ex_intro _ _ E)). lia.
Qed.

(** A user with a new [username] and a new [email] is created, and is
    then found under the key returned. *)
Lemma createUser_succeeds email_first s username email passwordHash now :
  ~ username_taken s username -> ~ email_taken s email ->
  exists id,
    (createUser email_first s username email passwordHash now).2 = Ok id /\
    users_table s !! id = None /\
    users_table (createUser email_first s username email passwordHash now).1
      !! id
    = Some (users.Row username email passwordHash false now).
Proof.
  intros Hu He. exists (autoincrement (users_table s) (users_seq s)).
  unfold createUser.
  destruct email_first; rewrite !decide_False by assumption; simpl;
    rewrite lookup_insert_eq; auto using autoincrement_fresh.
Qed.

Lemma insertUser_referential_integrity s u e h now :
  referential_integrity s -> referential_integrity (insertUser s u e h now).1.
Proof.
  intros Hs pid p Hp. simpl in Hp.
  destruct (Hs pid p Hp) as [x Hx]. unfold user_exists. simpl.
  destruct (decide (autoincrement (users_table s) (users_seq s)
                    = predictions.user_id p)) as [->|Hne].
  - rewrite lookup_insert_eq. eauto.
  - rewrite lookup_insert_ne by assumption. eauto.
Qed.

Lemma createUser_referential_integrity email_first s u e h now :
  referential_integrity s ->
  referential_integrity (createUser email_first s u e h now).1.
Proof.
  intros Hs. unfold createUser.
  destruct email_first; repeat case_decide;
    auto using insertUser_referential_integrity.
Qed.

Lemma recordPrediction_referential_integrity s uid a premium now :
  referential_integrity s ->
  referential_integrity (recordPrediction s uid a premium now).1.
Proof.
  intros Hs. unfold recordPrediction.
  case_decide as Hu; simpl; try assumption.
  intros pid p. simpl. unfold user_exists. simpl.
  intros [[_ <-]|[_ Hp]]%lookup_insert_Some.
  - exact Hu.
  - exact (Hs pid p Hp).
Qed.

Lemma deleteUser_referential_integrity s uid :
  referential_integrity s -> referential_integrity (deleteUser s uid).
Proof.
  intros Hs. unfold deleteUser.
  case_decide as Hu; try assumption.
  intros pid p. simpl. unfold user_exists. simpl.
  intros [Hp Hne]%map_lookup_filter_Some. simpl in Hne.
  rewrite lookup_delete_ne by congruence.
  exact (Hs pid p Hp).
Qed.

Lemma execute_referential_integrity email_first s st :
  referential_integrity s ->
  referential_integrity (execute email_first s st).
Proof.
  destruct st; simpl;
    auto using createUser_referential_integrity,
      recordPrediction_referential_integrity,
      deleteUser_referential_integrity.
Qed.

Lemma empty_store_referential_integrity : referential_integrity empty_store.
Proof. intros pid p Hp. simpl in Hp. by rewrite lookup_empty in Hp. Qed.

(** C1. In every reachable state of the database each row of [predictions]
    has a [user_id] that is the key of a row of [users]; and
    [recordPrediction] with a [userId] that is not fails with
    [ForeignKeyViolation] and leaves the database as it was. *)
Theorem predictions_reference_users :
  (forall email_first s,
     reachable email_first s -> referential_integrity s) /\
  (forall s userId a predictedPremium now,
     ~ user_exists s userId ->
     recordPrediction s userId a predictedPremium now
     = (s, Fails ForeignKeyViolation)).
Proof.
  split.
  - induction 1 as [|s st _ IH].
    + apply empty_store_referential_integrity.
    + by apply execute_referential_integrity.
  - intros s userId a premium now Hu. unfold recordPrediction.
    by rewrite decide_False.
Qed.

(** C2. Deleting an existing user removes that user, keeps every other row
    of [users] as it is, and keeps exactly the predictions that reference
    another user, each as it is. *)
Theorem deleteUser_cascade s userId u :
  users_table s !! userId = Some u ->
  users_table (deleteUser s userId) !! userId = None /\
  (forall k, k <> userId ->
     users_table (deleteUser s userId) !! k = users_table s !! k) /\
  (forall pid p,
     predictions_table (deleteUser s userId) !! pid = Some p <->
     predictions_table s !! pid = Some p /\ predictions.user_id p <> userId).
Proof.
  intros Hu. unfold deleteUser.
  rewrite decide_True by (unfold user_exists; eauto). simpl.
  split; [apply lookup_delete_eq|]. split.
  - intros k Hk. by rewrite lookup_delete_ne.
  - intros pid p. by rewrite map_lookup_filter_Some.
Qed.

Lemma createUser_fails_unchanged email_first s username email h now :
  username_taken s username \/ email_taken s email ->
  (createUser email_first s username email h now
   = (s, Fails DuplicateUsername) /\ username_taken s username) \/
  (createUser email_first s username email h now
   = (s, Fails DuplicateEmail) /\ email_taken s email).
Proof.
  intros H. unfold createUser.
  destruct email_first; repeat case_decide; tauto.
Qed.

(** C3.  [createUser] with a [username] already
    in [users] and a new [email] fails with [DuplicateUsername]; with an
    [email] already in [users] and a new [username] it fails with
    [DuplicateEmail]; with both already there it fails with one of the
    two.  In every one of these cases the database, and so the [users]
    table, is unchanged. *)
Theorem createUser_duplicate email_first s username email passwordHash now :
  (username_taken s username -> ~ email_taken s email ->
   createUser email_first s username email passwordHash now
   = (s, Fails DuplicateUsername)) /\
  (email_taken s email -> ~ username_taken s username ->
   createUser email_first s username email passwordHash now
   = (s, Fails DuplicateEmail)) /\
  (username_taken s username \/ email_taken s email ->
   exists e,
     createUser email_first s username email passwordHash now = (s, Fails e)
     /\ (e = DuplicateUsername \/ e = DuplicateEmail)).
Proof.
  split; [|split].
  - intros Hu He.
    destruct (createUser_fails_unchanged email_first s username email
                passwordHash now) as [[H _]|[_ H]]; tauto.
  - intros He Hu.
    destruct (createUser_fails_unchanged email_first s username email
                passwordHash now) as [[_ H]|[H _]]; tauto.
  - intros H.
    destruct (createUser_fails_unchanged email_first s username email
                passwordHash now H) as [[-> _]|[-> _]]; eauto.
Qed.

Lemma created_at_le_total : Total created_at_le.
Proof. intros x y. unfold created_at_le. lia. Qed.

Lemma created_at_le_trans : Transitive created_at_le.
Proof. intros x y z. unfold created_at_le. lia. Qed.

(** C4. [listPredictionsForUser] returns the rows of [predictions] whose
    [user_id] is [userId], each once and no other, in non-decreasing
    order of [created_at]. *)
Theorem listPredictionsForUser_sorted s userId :
  (forall pid p,
     (pid, p) ∈ listPredictionsForUser s userId <->
     predictions_table s !! pid = Some p /\ predictions.user_id p = userId) /\
  NoDup (listPredictionsForUser s userId) /\
  StronglySorted created_at_le (listPredictionsForUser s userId).
Proof.
  unfold listPredictionsForUser. split; [|split].
  - intros pid p. rewrite merge_sort_Permutation.
    rewrite elem_of_map_to_list. by rewrite map_lookup_filter_Some.
  - rewrite merge_sort_Permutation. apply NoDup_map_to_list.
  - apply StronglySorted_merge_sort.
    + apply created_at_le_trans.
    + apply created_at_le_total.
Qed.

End StoreProperties.

(** The statements of C1 on the sample database. *)
Lemma predictions_reference_users_witness :
  referential_integrity store_two_users /\
  recordPrediction empty_store 7 sample_attributes (of_Z 4200) 140
  = (empty_store, Fails ForeignKeyViolation).
Proof.
  split.
  - apply (proj1 predictions_reference_users false).
    unfold store_two_users. repeat constructor.
  - apply (proj2 predictions_reference_users).
    vm_compute. intros [u Hu]. discriminate Hu.
Defined.

(** The statement of C2 on the sample database: deleting user 1 keeps
    user 2 and the prediction of user 2. *)
Lemma deleteUser_cascade_witness :
  users_table (deleteUser store_two_users 1) !! 1 = None /\
  (forall k, k <> 1 ->
     users_table (deleteUser store_two_users 1) !! k
     = users_table store_two_users !! k) /\
  (forall pid p,
     predictions_table (deleteUser store_two_users 1) !! pid = Some p <->
     predictions_table store_two_users !! pid = Some p
     /\ predictions.user_id p <> 1).
Proof.
  apply (deleteUser_cascade store_two_users 1
           (users.Row "alice" "alice@example.org" "pbkdf2:1" false 100)).
  vm_compute. reflexivity.
Defined.

Lemma store_alice_username : username_taken store_alice "alice".
Proof.
  apply (map_Exists_lookup_2 _ _ 1
           (users.Row "alice" "alice@example.org" "pbkdf2:1" false 100));
    reflexivity.
Qed.

Lemma store_alice_email : email_taken store_alice "alice@example.org".
Proof.
  apply (map_Exists_lookup_2 _ _ 1
           (users.Row "alice" "alice@example.org" "pbkdf2:1" false 100));
    reflexivity.
Qed.

Lemma store_alice_no_carol :
  ~ username_taken store_alice "carol"
  /\ ~ email_taken store_alice "carol@example.org".
Proof.
  split; apply (bool_decide_eq_false_1 _); reflexivity.
Qed.

(** C3 without its restriction fails where both columns collide: the call
    has one error, so it cannot be [DuplicateUsername] for the [username]
    and [DuplicateEmail] for the [email]; whichever column is checked
    first, the error of the other is not the one returned. *)
Lemma createUser_duplicate_counterexample :
  username_taken store_alice "alice" /\
  email_taken store_alice "alice@example.org" /\
  createUser false store_alice "alice" "alice@example.org" "pbkdf2:3" 150
  <> (store_alice, Fails DuplicateEmail) /\
  createUser true store_alice "alice" "alice@example.org" "pbkdf2:3" 150
  <> (store_alice, Fails DuplicateUsername).
Proof.
  split; [apply store_alice_username|].
  split; [apply store_alice_email|].
  split; intros H; apply (f_equal snd) in H; vm_compute in H; discriminate H.
Defined.

(** C3 on the sample database. *)
Lemma createUser_duplicate_witness :
  createUser true store_alice "alice" "carol@example.org" "pbkdf2:3" 150
  = (store_alice, Fails DuplicateUsername) /\
  createUser false store_alice "carol" "alice@example.org" "pbkdf2:3" 150
  = (store_alice, Fails DuplicateEmail).
Proof.
  split.
  - apply (proj1 (createUser_duplicate true store_alice "alice"
                    "carol@example.org" "pbkdf2:3" 150)).
    + apply store_alice_username.
    + apply store_alice_no_carol.
  - apply (proj1 (proj2 (createUser_duplicate false store_alice "carol"
                           "alice@example.org" "pbkdf2:3" 150))).
    + apply store_alice_email.
    + apply store_alice_no_carol.
Defined.

(** * Properties of the client script *)

(** ** Number comparisons *)

Lemma js_ge_not_lt a b : js_ge a b = true -> js_lt a b = false.
Proof. unfold js_ge, js_lt. by destruct (SFcompare a b) as [[]|]. Qed.

Lemma js_le_not_gt a b : js_le a b = true -> js_gt a b = false.
Proof. unfold js_le, js_gt, js_lt. by destruct (SFcompare b a) as [[]|]. Qed.

Lemma js_lt_not_ge a b : js_lt a b = true -> js_ge a b = false.
Proof. unfold js_ge, js_lt. by destruct (SFcompare a b) as [[]|]. Qed.

Lemma js_le_ge a b : js_le a b = js_ge b a.
Proof. reflexivity. Qed.

Lemma compare_NaN_l a : SFcompare NaN a = None.
Proof. reflexivity. Qed.

Lemma compare_NaN_r a : SFcompare a NaN = None.
Proof. by destruct a. Qed.

Lemma NaN_comparisons a :
  js_lt NaN a = false /\ js_gt NaN a = false /\
  js_ge NaN a = false /\ js_le NaN a = false.
Proof.
  unfold js_gt, js_lt, js_ge, js_le. by rewrite compare_NaN_l, compare_NaN_r.
Qed.

(** The order of two finite Numbers of the same sign is the lexicographic
    order of exponent and mantissa. *)
Lemma finite_compare_Lt (m1 m2 : positive) (e1 e2 : Z) :
  match (e1 ?= e2)%Z with
  | Lt => Lt
  | Gt => Gt
  | Eq => Pos.compare_cont Eq m1 m2
  end = Lt <-> e1 < e2 \/ (e1 = e2 /\ (m1 < m2)%positive).
Proof.
  fold (Pos.compare m1 m2).
  destruct (Z.compare_spec e1 e2), (Pos.compare_spec m1 m2);
    split; intros Hc; try discriminate Hc; try reflexivity; lia.
Qed.

Lemma finite_compare_Gt (m1 m2 : positive) (e1 e2 : Z) :
  match (e1 ?= e2)%Z with
  | Lt => Gt
  | Gt => Lt
  | Eq => CompOpp (Pos.compare_cont Eq m1 m2)
  end = Lt <-> e2 < e1 \/ (e1 = e2 /\ (m2 < m1)%positive).
Proof.
  fold (Pos.compare m1 m2).
  destruct (Z.compare_spec e1 e2), (Pos.compare_spec m1 m2);
    split; simpl; intros Hc; try discriminate Hc; try reflexivity; lia.
Qed.

Lemma js_lt_finite s1 m1 e1 s2 m2 e2 :
  js_lt (S754_finite s1 m1 e1) (S754_finite s2 m2 e2) = true <->
  match s1, s2 with
  | true, false => True
  | false, true => False
  | false, false => e1 < e2 \/ (e1 = e2 /\ (m1 < m2)%positive)
  | true, true => e2 < e1 \/ (e1 = e2 /\ (m2 < m1)%positive)
  end.
Proof.
  unfold js_lt. simpl. destruct s1, s2; simpl.
  - rewrite <- finite_compare_Gt.
    destruct (e1 ?= e2)%Z, (Pos.compare_cont Eq m1 m2); simpl;
      split; congruence.
  - tauto.
  - split; [discriminate|tauto].
  - rewrite <- finite_compare_Lt.
    destruct (e1 ?= e2)%Z, (Pos.compare_cont Eq m1 m2); simpl;
      split; congruence.
Qed.

(** [<] is transitive on Numbers. *)
Lemma js_lt_trans a b c :
  js_lt a b = true -> js_lt b c = true -> js_lt a c = true.
Proof.
  destruct a as [sa|sa| |sa ma ea], b as [sb|sb| |sb mb eb],
    c as [sc|sc| |sc mc ec];
    try (rewrite !js_lt_finite);
    try (destruct sa); try (destruct sb); try (destruct sc);
    try (intros; reflexivity); try (intros H; discriminate H);
    try (intros _ H; discriminate H); try tauto; try lia.
Qed.

(** A Number at or above a threshold is not below a smaller threshold. *)
Lemma js_ge_above x c1 c2 :
  js_lt c1 c2 = true -> js_ge x c2 = true -> js_lt x c1 = false.
Proof.
  intros H12 Hge. destruct (js_lt x c1) eqn:Hlt; [|reflexivity].
  rewrite (js_lt_not_ge x c2) in Hge; [discriminate Hge|].
  by apply js_lt_trans with c1.
Qed.

(** ** Class lists and feedback *)

Lemma is_valid_ne_is_invalid : is_valid <> is_invalid.
Proof. discriminate. Qed.

Lemma elem_of_classList_add c c' input :
  c' ∈ classList (classList_add c input) <-> c' = c \/ c' ∈ classList input.
Proof.
  unfold classList_add. case_bool_decide as Hc; simpl.
  - split; [tauto|]. intros [->|?]; assumption.
  - rewrite elem_of_app, list_elem_of_singleton. tauto.
Qed.

Lemma elem_of_classList_remove c c' input :
  c' ∈ classList (classList_remove c input) <->
  c' <> c /\ c' ∈ classList input.
Proof.
  unfold classList_remove. simpl. rewrite list_elem_of_filter. tauto.
Qed.

(** Setting one class and clearing the other, then the feedback text. *)
Lemma set_feedback_marked on off text before input :
  on <> off -> value input = value before ->
  marked on off text before
    (set_feedback (classList_remove off (classList_add on input)) text).
Proof.
  intros Hne Hv. unfold marked.
  change (classList (set_feedback ?e text)) with (classList e).
  rewrite !elem_of_classList_remove, !elem_of_classList_add.
  repeat split; try tauto.
  simpl. unfold classList_add. by case_bool_decide.
Qed.

Lemma feedbackElement_value input : value (feedbackElement input) = value input.
Proof. unfold feedbackElement. by destruct (feedback input). Qed.

Lemma feedbackElement_classList input :
  classList (feedbackElement input) = classList input.
Proof. unfold feedbackElement. by destruct (feedback input). Qed.

Lemma feedbackElement_borderColor input :
  borderColor (feedbackElement input) = borderColor input.
Proof. unfold feedbackElement. by destruct (feedback input). Qed.

Lemma feedbackElement_feedback input :
  feedback (feedbackElement input) = Some (feedbackText input).
Proof.
  unfold feedbackElement, feedbackText.
  by destruct (feedback input) eqn:E; simpl; rewrite ?E.
Qed.

Lemma set_borderColor_marked on off text before input c :
  marked on off text before input ->
  marked on off text before (set_borderColor input c).
Proof. intros H. exact H. Qed.

(** ** Age *)

Lemma in_range_not_out x lo hi :
  in_range lo hi x = true -> out_of_range lo hi x = false.
Proof.
  unfold in_range, out_of_range. intros [H1 H2]%andb_true_iff.
  by rewrite (js_ge_not_lt _ _ H1), (js_le_not_gt _ _ H2).
Qed.

(** The invalid branch of [validateAge]. *)
Lemma validateAge_out_of_range input :
  out_of_range num_18 num_100 (parseInt (value input)) = true ->
  marked_invalid (js "Age must be between 18 and 100 years.") input
    (validateAge input).
Proof.
  unfold out_of_range, validateAge. intros ->.
  apply set_feedback_marked.
  - intros E. by apply is_valid_ne_is_invalid.
  - apply feedbackElement_value.
Qed.

(** The valid branch of [validateAge]. *)
Lemma validateAge_in_range input :
  in_range num_18 num_100 (parseInt (value input)) = true ->
  marked_valid [] input (validateAge input).
Proof.
  intros H. pose proof (in_range_not_out _ _ _ H) as Hout.
  unfold in_range, out_of_range, validateAge in *. rewrite Hout, H.
  apply set_feedback_marked.
  - apply is_valid_ne_is_invalid.
  - apply feedbackElement_value.
Qed.

(** [validateAge] flags no field whose age is not out of range. *)
Lemma validateAge_flags_only_out_of_range input :
  is_invalid ∉ classList input ->
  is_invalid ∈ classList (validateAge input) ->
  out_of_range num_18 num_100 (parseInt (value input)) = true.
Proof.
  intros Hclean Hflag.
  destruct (out_of_range num_18 num_100 (parseInt (value input))) eqn:Hout;
    [reflexivity|exfalso].
  unfold out_of_range, validateAge in *. rewrite Hout in Hflag.
  destruct (js_ge (parseInt (value input)) num_18
            && js_le (parseInt (value input)) num_100).
  - change (classList (set_feedback ?e [])) with (classList e) in Hflag.
    apply elem_of_classList_remove in Hflag. tauto.
  - by rewrite feedbackElement_classList in Hflag.
Qed.

(** On the ages a person can have, comparing the parsed Number is
    comparing the integer. *)
Lemma age_comparisons_agree :
  forallb (fun n =>
             Bool.eqb (out_of_range num_18 num_100 (of_Z n))
                      ((n <? 18) || (100 <? n))
             && Bool.eqb (in_range num_18 num_100 (of_Z n))
                         ((18 <=? n) && (n <=? 100)))
          (seqZ 0 200) = true.
Proof. vm_compute. reflexivity. Qed.

(** C5. [validateAge] marks the field invalid, with the message
    'Age must be between 18 and 100 years.', when the parsed age is below
    18 or above 100, and only then flags a field that was not flagged; it
    marks the field valid when the parsed age is in [18, 100].  An age of
    17 is rejected and an age of 45 is accepted. *)
Theorem validateAge_range (input : Element) :
  (out_of_range num_18 num_100 (parseInt (value input)) = true ->
   marked_invalid (js "Age must be between 18 and 100 years.") input
     (validateAge input)) /\
  (is_invalid ∉ classList input ->
   is_invalid ∈ classList (validateAge input) ->
   out_of_range num_18 num_100 (parseInt (value input)) = true) /\
  (in_range num_18 num_100 (parseInt (value input)) = true ->
   marked_valid [] input (validateAge input)) /\
  (value input = js "17" ->
   marked_invalid (js "Age must be between 18 and 100 years.") input
     (validateAge input)) /\
  (value input = js "45" -> marked_valid [] input (validateAge input)).
Proof.
  split; [apply validateAge_out_of_range|].
  split; [apply validateAge_flags_only_out_of_range|].
  split; [apply validateAge_in_range|].
  split; intros Hv.
  - apply validateAge_out_of_range. by rewrite Hv.
  - apply validateAge_in_range. by rewrite Hv.
Qed.

(** ** Body mass index *)

Lemma getBMICategory_underweight bmi :
  js_lt bmi num_18_5 = true -> getBMICategory bmi = js "Underweight".
Proof. intros H. unfold getBMICategory. by rewrite H. Qed.

Lemma getBMICategory_normal bmi :
  js_ge bmi num_18_5 = true -> js_lt bmi num_25 = true ->
  getBMICategory bmi = js "Normal weight".
Proof.
  intros H1 H2. unfold getBMICategory.
  by rewrite (js_ge_not_lt _ _ H1), H2.
Qed.

Lemma getBMICategory_overweight bmi :
  js_ge bmi num_25 = true -> js_lt bmi num_30 = true ->
  getBMICategory bmi = js "Overweight".
Proof.
  intros H1 H2. unfold getBMICategory.
  rewrite (js_ge_above bmi num_18_5 num_25) by done.
  by rewrite (js_ge_not_lt _ _ H1), H2.
Qed.

Lemma getBMICategory_obese bmi :
  js_ge bmi num_30 = true -> getBMICategory bmi = js "Obese".
Proof.
  intros H. unfold getBMICategory.
  rewrite (js_ge_above bmi num_18_5 num_30) by done.
  rewrite (js_ge_above bmi num_25 num_30) by done.
  by rewrite (js_ge_not_lt _ _ H).
Qed.

(** The invalid branch of [validateBMI]. *)
Lemma validateBMI_out_of_range input :
  out_of_range num_10 num_50 (parseFloat (value input)) = true ->
  marked_invalid (js "BMI must be between 10 and 50.") input
    (validateBMI input).
Proof.
  unfold out_of_range, validateBMI. intros ->.
  apply set_feedback_marked.
  - intros E. by apply is_valid_ne_is_invalid.
  - apply feedbackElement_value.
Qed.

(** The valid branch of [validateBMI]. *)
Lemma validateBMI_in_range input :
  in_range num_10 num_50 (parseFloat (value input)) = true ->
  marked_valid (getBMICategory (parseFloat (value input))) input
    (validateBMI input).
Proof.
  intros H. pose proof (in_range_not_out _ _ _ H) as Hout.
  unfold in_range, out_of_range, validateBMI in *. rewrite Hout, H.
  assert (marked_valid (getBMICategory (parseFloat (value input))) input
            (set_feedback
               (classList_remove is_invalid
                  (classList_add is_valid (feedbackElement input)))
               (getBMICategory (parseFloat (value input))))) as Hm.
  { apply set_feedback_marked.
    - apply is_valid_ne_is_invalid.
    - apply feedbackElement_value. }
  repeat case_match; by apply set_borderColor_marked.
Qed.

(** C6. [validateBMI] rejects a parsed value below 10 or above 50 and
    accepts one in [10, 50], and then the feedback text is the category of
    [getBMICategory]: 'Underweight' below 18.5, 'Normal weight' from 18.5
    to below 25, 'Overweight' from 25 to below 30, 'Obese' from 30.  A BMI
    of 52 is rejected; a BMI of 22.4 is accepted as 'Normal weight'. *)
Theorem validateBMI_range_and_category (input : Element) (bmi : Number) :
  (out_of_range num_10 num_50 (parseFloat (value input)) = true ->
   marked_invalid (js "BMI must be between 10 and 50.") input
     (validateBMI input)) /\
  (in_range num_10 num_50 (parseFloat (value input)) = true ->
   marked_valid (getBMICategory (parseFloat (value input))) input
     (validateBMI input)) /\
  (js_lt bmi num_18_5 = true -> getBMICategory bmi = js "Underweight") /\
  (js_le num_18_5 bmi = true -> js_lt bmi num_25 = true ->
   getBMICategory bmi = js "Normal weight") /\
  (js_le num_25 bmi = true -> js_lt bmi num_30 = true ->
   getBMICategory bmi = js "Overweight") /\
  (js_ge bmi num_30 = true -> getBMICategory bmi = js "Obese") /\
  (value input = js "52" ->
   marked_invalid (js "BMI must be between 10 and 50.") input
     (validateBMI input)) /\
  (value input = js "22.4" ->
   marked_valid (js "Normal weight") input (validateBMI input)).
Proof.
  split; [apply validateBMI_out_of_range|].
  split; [apply validateBMI_in_range|].
  split; [apply getBMICategory_underweight|].
  split; [apply getBMICategory_normal|].
  split; [apply getBMICategory_overweight|].
  split; [apply getBMICategory_obese|].
  split; intros Hv.
  - apply validateBMI_out_of_range. by rewrite Hv.
  - replace (js "Normal weight")
      with (getBMICategory (parseFloat (value input))) by by rewrite Hv.
    apply validateBMI_in_range. by rewrite Hv.
Qed.

(** ** Values that are not numbers *)

Lemma NaN_neither x lo hi :
  x = NaN ->
  out_of_range lo hi x = false /\ in_range lo hi x = false.
Proof.
  intros ->. unfold out_of_range, in_range.
  destruct (NaN_comparisons lo) as (-> & _ & -> & _).
  destruct (NaN_comparisons hi) as (_ & -> & _). done.
Qed.

Lemma parseInt_blank : parseInt [] = NaN.
Proof. reflexivity. Qed.

Lemma parseFloat_blank : parseFloat [] = NaN.
Proof. reflexivity. Qed.

(** C10. When the value of the field does not parse to a number,
    [validateAge] and [validateBMI] take neither branch: the classes of
    the field, the text of its feedback and its border are what they were;
    so it is for a blank field. *)
Theorem not_a_number_untouched (input : Element) :
  (parseInt (value input) = NaN ->
   classList (validateAge input) = classList input /\
   feedbackText (validateAge input) = feedbackText input /\
   borderColor (validateAge input) = borderColor input) /\
  (parseFloat (value input) = NaN ->
   classList (validateBMI input) = classList input /\
   feedbackText (validateBMI input) = feedbackText input /\
   borderColor (validateBMI input) = borderColor input) /\
  (value input = [] ->
   classList (validateAge input) = classList input /\
   classList (validateBMI input) = classList input).
Proof.
  assert (forall e, feedbackText (feedbackElement e) = feedbackText e) as Ht.
  { intros e. unfold feedbackText at 1.
    by rewrite feedbackElement_feedback. }
  assert (parseInt (value input) = NaN -> validateAge input
          = feedbackElement input) as Hage.
  { intros H. destruct (NaN_neither _ num_18 num_100 H) as [H1 H2].
    unfold out_of_range, in_range, validateAge in *. by rewrite H1, H2. }
  assert (parseFloat (value input) = NaN -> validateBMI input
          = feedbackElement input) as Hbmi.
  { intros H. destruct (NaN_neither _ num_10 num_50 H) as [H1 H2].
    unfold out_of_range, in_range, validateBMI in *. by rewrite H1, H2. }
  split; [|split].
  - intros H. rewrite (Hage H).
    auto using feedbackElement_classList, feedbackElement_borderColor.
  - intros H. rewrite (Hbmi H).
    auto using feedbackElement_classList, feedbackElement_borderColor.
  - intros Hv. rewrite Hage, Hbmi by (rewrite Hv; reflexivity).
    auto using feedbackElement_classList.
Qed.

(** ** The matcher and the strings of a regular expression *)

Lemma nullable_matches r : nullable r = true <-> matches r [].
Proof.
  induction r as [| |p|r1 IH1 r2 IH2|r1 IH1 r2 IH2|r IH]; simpl.
  - split; [discriminate|]. inversion 1.
  - split; [constructor|reflexivity].
  - split; [discriminate|]. inversion 1.
  - rewrite andb_true_iff, IH1, IH2. split.
    + intros [H1 H2]. exact (matches_Cat r1 r2 [] [] H1 H2).
    + inversion 1 as [| |? ? s1 s2 H1 H2 E1 E2| | | |]; subst.
      apply app_eq_nil in E2 as [-> ->]. by split.
  - rewrite orb_true_iff, IH1, IH2. split.
    + intros [H|H]; [by apply matches_Alt_l|by apply matches_Alt_r].
    + inversion 1; subst; [by left|by right].
  - split; [constructor|reflexivity].
Qed.

(** A non-empty string of [r*] starts with a non-empty string of [r]. *)
Lemma matches_Star_cons r c s :
  matches (Star r) (c :: s) ->
  exists s1 s2, s = s1 ++ s2 /\ matches r (c :: s1) /\ matches (Star r) s2.
Proof.
  intros H. remember (Star r) as r' eqn:Er. remember (c :: s) as s' eqn:Es.
  revert r c s Er Es.
  induction H as [|p0 c0 Hp|r1 r2 s1 s2 H1 _ H2 _|r1 r2 s0 H0 _|r1 r2 s0 H0 _
                  |r0|r0 s1 s2 H1 _ H2 IH2];
    intros r c s Er Es; try discriminate Er; try discriminate Es.
  injection Er as ->. destruct s1 as [|c1 s1]; simpl in Es.
  - by apply IH2.
  - injection Es as -> <-. by exists s1, s2.
Qed.

Lemma derivative_matches r c s :
  matches (derivative c r) s <-> matches r (c :: s).
Proof.
  revert s.
  induction r as [| |p|r1 IH1 r2 IH2|r1 IH1 r2 IH2|r IH]; intros s; simpl.
  - split; inversion 1.
  - split; inversion 1.
  - destruct (p c) eqn:Hp; split.
    + inversion 1; subst. by constructor.
    + inversion 1; subst. constructor.
    + inversion 1.
    + inversion 1; subst. congruence.
  - assert (matches (Cat (derivative c r1) r2) s ->
            matches (Cat r1 r2) (c :: s)) as Hcat.
    { inversion 1 as [| |? ? s1 s2 H1 H2| | | |]; subst.
      apply IH1 in H1. exact (matches_Cat r1 r2 (c :: s1) s2 H1 H2). }
    assert (matches (Cat r1 r2) (c :: s) ->
            matches (Cat (derivative c r1) r2) s
            \/ (matches r1 [] /\ matches r2 (c :: s))) as Hinv.
    { inversion 1 as [| |? ? s1 s2 H1 H2 E1 E2| | | |]; subst.
      destruct s1 as [|c1 s1]; simpl in E2.
      - right. subst. by split.
      - injection E2 as -> <-. left. constructor; [by apply IH1|done]. }
    destruct (nullable r1) eqn:Hn.
    + split.
      * inversion 1; subst; [by apply Hcat|].
        apply nullable_matches in Hn.
        apply (matches_Cat r1 r2 [] (c :: s) Hn). by apply IH2.
      * intros [H|[_ H]]%Hinv; [by apply matches_Alt_l|].
        apply matches_Alt_r. by apply IH2.
    + split; [exact Hcat|].
      intros [H|[H _]]%Hinv; [done|].
      apply nullable_matches in H. congruence.
  - split.
    + inversion 1; subst;
        [apply matches_Alt_l; by apply IH1|apply matches_Alt_r; by apply IH2].
    + inversion 1; subst;
        [apply matches_Alt_l; by apply IH1|apply matches_Alt_r; by apply IH2].
  - split.
    + inversion 1 as [| |? ? s1 s2 H1 H2| | | |]; subst.
      apply IH in H1. exact (matches_Star_app r (c :: s1) s2 H1 H2).
    + intros (s1 & s2 & -> & H1 & H2)%matches_Star_cons.
      constructor; [by apply IH|done].
Qed.

(** The matcher decides membership. *)
Lemma test_matches r s : test r s = true <-> matches r s.
Proof.
  unfold test. revert r.
  induction s as [|c s IH]; intros r; simpl.
  - apply nullable_matches.
  - rewrite IH. apply derivative_matches.
Qed.

(** ** The shape of an email address *)

Lemma matches_Class_inv p s :
  matches (Class p) s <-> exists c, s = [c] /\ p c = true.
Proof.
  split.
  - inversion 1; subst. eauto.
  - intros (c & -> & Hc). by constructor.
Qed.

Lemma matches_Star_Class p s :
  matches (Star (Class p)) s <-> Forall (fun c => p c = true) s.
Proof.
  split.
  - intros H. remember (Star (Class p)) as r eqn:Er.
    induction H as [|p0 c0 Hp|r1 r2 s1 s2 H1 _ H2 _|r1 r2 s0 H0 _
                    |r1 r2 s0 H0 _|r0|r0 s1 s2 H1 _ H2 IH2];
      try discriminate Er; [constructor|].
    injection Er as ->. apply matches_Class_inv in H1 as (c & -> & Hc).
    constructor; [done|by apply IH2].
  - induction 1 as [|c s Hc _ IH]; [constructor|].
    apply (matches_Star_app (Class p) [c] s); [by constructor|done].
Qed.

Lemma matches_Plus_Class p s :
  matches (Plus (Class p)) s <-> s <> [] /\ Forall (fun c => p c = true) s.
Proof.
  unfold Plus. split.
  - inversion 1 as [| |? ? s1 s2 H1 H2| | | |]; subst.
    apply matches_Class_inv in H1 as (c & -> & Hc).
    apply matches_Star_Class in H2. split; [done|by constructor].
  - intros [Hne Hall]. destruct Hall as [|c s Hc Hs]; [done|].
    apply (matches_Cat (Class p) (Star (Class p)) [c] s);
      [by constructor|by apply matches_Star_Class].
Qed.

Lemma matches_Cat_inv r1 r2 s :
  matches (Cat r1 r2) s <->
  exists s1 s2, s = s1 ++ s2 /\ matches r1 s1 /\ matches r2 s2.
Proof.
  split.
  - inversion 1; subst. eauto.
  - intros (s1 & s2 & -> & H1 & H2). by constructor.
Qed.

Lemma matches_Chr c s : matches (Chr c) s <-> s = [c].
Proof.
  unfold Chr. rewrite matches_Class_inv. split.
  - intros (c' & -> & Hc). apply N.eqb_eq in Hc. by subst.
  - intros ->. exists c. split; [done|apply N.eqb_refl].
Qed.

(** The strings of [emailRegex] are the strings of shape
    [local@domain.tld]. *)
Lemma emailRegex_shape s : test emailRegex s = true <-> email_shape s.
Proof.
  rewrite test_matches. unfold emailRegex, email_shape, email_part.
  split.
  - intros (l & s1 & -> & Hl & H1)%matches_Cat_inv.
    apply matches_Cat_inv in H1 as (a & s2 & -> & Ha & H2).
    apply matches_Cat_inv in H2 as (d & s3 & -> & Hd & H3).
    apply matches_Cat_inv in H3 as (p & t & -> & Hp & Ht).
    apply matches_Chr in Ha as ->. apply matches_Chr in Hp as ->.
    apply matches_Plus_Class in Hl, Hd, Ht.
    by exists l, d, t.
  - intros (l & d & t & -> & Hl & Hd & Ht).
    apply matches_Plus_Class in Hl, Hd, Ht.
    repeat (apply matches_Cat; [by (done || apply matches_Chr)|]).
    done.
Qed.

(** C7. [validateEmail] accepts the strings that match
    [/^[^\s@]+@[^\s@]+\.[^\s@]+$/], which are the strings of shape
    [local@domain.tld], and rejects every other string with the message
    'Please enter a valid email address.'; [a@b] is rejected and [a@b.com]
    is accepted. *)
Theorem validateEmail_shape (input : Element) :
  (test emailRegex (value input) = true <-> email_shape (value input)) /\
  (email_shape (value input) <->
   is_valid ∈ classList (validateEmail input)) /\
  (email_shape (value input) ->
   marked_valid [] input (validateEmail input)) /\
  (~ email_shape (value input) ->
   marked_invalid (js "Please enter a valid email address.") input
     (validateEmail input)) /\
  (value input = js "a@b" ->
   marked_invalid (js "Please enter a valid email address.") input
     (validateEmail input)) /\
  (value input = js "a@b.com" -> marked_valid [] input (validateEmail input)).
Proof.
  assert (test emailRegex (value input) = true ->
          marked_valid [] input (validateEmail input)) as Hyes.
  { intros H. unfold validateEmail. rewrite H. simpl.
    apply set_feedback_marked;
      [apply is_valid_ne_is_invalid|apply feedbackElement_value]. }
  assert (test emailRegex (value input) = false ->
          marked_invalid (js "Please enter a valid email address.") input
            (validateEmail input)) as Hno.
  { intros H. unfold validateEmail. rewrite H. simpl.
    apply set_feedback_marked;
      [intros E; by apply is_valid_ne_is_invalid
      |apply feedbackElement_value]. }
  split; [apply emailRegex_shape|].
  split; [|split; [|split; [|split]]].
  - rewrite <- emailRegex_shape. split.
    + intros H. by destruct (Hyes H).
    + intros H. destruct (test emailRegex (value input)); [done|].
      destruct Hno as (_ & Hoff & _); [done|]. by destruct Hoff.
  - intros H. by apply Hyes, emailRegex_shape.
  - intros H. apply Hno. rewrite <- emailRegex_shape in H.
    by destruct (test emailRegex (value input)).
  - intros Hv. apply Hno. by rewrite Hv.
  - intros Hv. apply Hyes. by rewrite Hv.
Qed.

(** ** The validators on the sample fields *)

(** C5 on the ages 17 and 45. *)
Lemma validateAge_range_witness :
  marked_invalid (js "Age must be between 18 and 100 years.")
    (age_field (js "17")) (validateAge (age_field (js "17"))) /\
  out_of_range num_18 num_100 (parseInt (js "17")) = true /\
  marked_valid [] (age_field (js "45")) (validateAge (age_field (js "45"))).
Proof.
  destruct (validateAge_range (age_field (js "17"))) as (H1 & H2 & _).
  destruct (validateAge_range (age_field (js "45"))) as (_ & _ & H3 & _).
  split; [apply H1; reflexivity|].
  split; [|apply H3; reflexivity].
  apply H2.
  - vm_compute. intros H. inversion H as [|? ? ? Hn]; subst. inversion Hn.
  - apply (proj1 (H1 eq_refl)).
Defined.

(** C6 on the values 52 and 22.4. *)
Lemma validateBMI_range_and_category_witness :
  marked_invalid (js "BMI must be between 10 and 50.")
    (bmi_field (js "52")) (validateBMI (bmi_field (js "52"))) /\
  marked_valid (js "Normal weight")
    (bmi_field (js "22.4")) (validateBMI (bmi_field (js "22.4"))) /\
  getBMICategory (of_Z 27) = js "Overweight".
Proof.
  destruct (validateBMI_range_and_category (bmi_field (js "52")) (of_Z 27))
    as (H1 & _ & _ & _ & H5 & _).
  destruct (validateBMI_range_and_category (bmi_field (js "22.4")) (of_Z 27))
    as (_ & H2 & _).
  split; [apply H1; reflexivity|].
  split; [apply H2; reflexivity|].
  apply H5; reflexivity.
Defined.

(** C7 on [a@b] and [a@b.com]. *)
Lemma validateEmail_shape_witness :
  marked_invalid (js "Please enter a valid email address.")
    (email_field (js "a@b")) (validateEmail (email_field (js "a@b"))) /\
  marked_valid []
    (email_field (js "a@b.com")) (validateEmail (email_field (js "a@b.com"))).
Proof.
  destruct (validateEmail_shape (email_field (js "a@b")))
    as (_ & _ & _ & _ & H1 & _).
  destruct (validateEmail_shape (email_field (js "a@b.com")))
    as (_ & _ & H2 & _).
  split; [apply H1; reflexivity|].
  apply H2. exists (js "a"), (js "b"), (js "com").
  split; [reflexivity|]. unfold email_part.
  repeat split; try discriminate; repeat constructor.
Defined.

(** C10 on a blank field and on a field that holds letters. *)
Lemma not_a_number_untouched_witness :
  classList (validateAge (age_field [])) = classList (age_field []) /\
  classList (validateBMI (bmi_field (js "abc")))
  = classList (bmi_field (js "abc")) /\
  feedbackText (validateBMI (bmi_field (js "abc")))
  = feedbackText (bmi_field (js "abc")).
Proof.
  destruct (not_a_number_untouched (age_field [])) as (_ & _ & H3).
  destruct (not_a_number_untouched (bmi_field (js "abc"))) as (_ & H2 & _).
  split; [apply H3; reflexivity|].
  destruct H2 as (Hc & Ht & _); [reflexivity|].
  by split.
Defined.

(** ** The prediction request *)

Lemma templateLiteral_Normal parts message :
  templateLiteral parts = Normal message -> message = parts.
Proof. unfold templateLiteral. case_match; by intros [=]. Qed.

Lemma templateLiteral_Text s : templateLiteral [Text s] = Normal [Text s].
Proof. reflexivity. Qed.

Lemma templateLiteral_Subst v :
  templateLiteral [Subst v] = if converts v then Normal [Subst v] else Throw.
Proof. unfold templateLiteral. simpl. by destruct (converts v). Qed.

Lemma templateLiteral_Text_Subst s v :
  templateLiteral [Text s; Subst v]
  = if converts v then Normal [Text s; Subst v] else Throw.
Proof. unfold templateLiteral. simpl. by destruct (converts v). Qed.

(** What a call of [showMessage] that returns has done. *)
Lemma showMessage_Normal page message type page' :
  showMessage page message type = Normal page' ->
  requests page' = requests page /\ fields page' = fields page /\
  console page' = console page /\
  (container page = None -> page' = page) /\
  (forall children,
     container page = Some children ->
     container page'
     = Some (mkAlert
               (js "alert alert-" ++ type
                ++ js " alert-dismissible fade show")
               (if jsstring_eqb type (js "success") then js "check-circle"
                else js "exclamation-triangle")
               message :: children) /\
     timers page'
     = timers page
       ++ [(5000,
            mkAlert
              (js "alert alert-" ++ type
               ++ js " alert-dismissible fade show")
              (if jsstring_eqb type (js "success") then js "check-circle"
               else js "exclamation-triangle")
              message)]).
Proof.
  unfold showMessage.
  destruct (templateLiteral message) as [m|] eqn:E; [|done].
  apply templateLiteral_Normal in E as ->.
  destruct (container page) as [children|]; intros [= <-];
    split_and!; try done.
  by intros ? [= <-].
Qed.

(** [showMessage] returns when the message has a text. *)
Lemma showMessage_returns page message type :
  templateLiteral message = Normal message ->
  exists page', showMessage page message type = Normal page'.
Proof.
  intros E. unfold showMessage. rewrite E.
  destruct (container page); eauto.
Qed.

Lemma showMessage_throws page message type :
  templateLiteral message = Throw -> showMessage page message type = Throw.
Proof. intros E. unfold showMessage. by rewrite E. Qed.

(** The [catch] handler returns. *)
Lemma onError_returns page error :
  exists page',
    showMessage page [Text (js "Network error occurred")] (js "danger")
    = Normal page' /\
    onError page error = Normal (console_error page' error, None).
Proof.
  destruct (showMessage_returns page [Text (js "Network error occurred")]
              (js "danger") eq_refl) as [page' E].
  exists page'. split; [done|].
  unfold onError, showErrorMessage. by rewrite E.
Qed.

(** The [then] handler shows one message when it returns, and returns
    [data]. *)
Lemma onData_Normal page data result :
  onData page data = Normal result ->
  result.2 = Some data /\
  exists message type, showMessage page message type = Normal result.1.
Proof.
  unfold onData, showSuccessMessage, showErrorMessage.
  repeat case_match; try done; intros [= <-]; (split; [done|]); eauto.
Qed.

(** Every response ends with one message shown, and the error logged when
    it was the message of the [catch] handler. *)
Lemma settlePredict_shows page r :
  exists message type page',
    showMessage page message type = Normal page' /\
    ((settlePredict page r).1 = page' \/
     exists error, (settlePredict page r).1 = console_error page' error).
Proof.
  assert (forall error,
    exists message type page',
      showMessage page message type = Normal page' /\
      ((match onError page error with
        | Throw => (page, Throw)
        | Normal (page, v) => (page, Normal v)
        end).1 = page' \/
       exists error',
         (match onError page error with
          | Throw => (page, Throw)
          | Normal (page, v) => (page, Normal v)
          end).1 = console_error page' error')) as Hcatch.
  { intros error. destruct (onError_returns page error) as (page' & E & ->).
    exists [Text (js "Network error occurred")], (js "danger"), page'.
    split; [done|]. right. by exists error. }
  unfold settlePredict. destruct r as [| |data]; try apply Hcatch.
  destruct (onData page data) as [[page' v]|] eqn:E; [|apply Hcatch].
  apply onData_Normal in E as (_ & message & type & E).
  exists message, type, page'. split; [done|]. by left.
Qed.

(** The handlers send nothing. *)
Lemma settlePredict_requests page r :
  requests (settlePredict page r).1 = requests page.
Proof.
  destruct (settlePredict_shows page r)
    as (message & type & page' & E & [-> |[error ->]]);
    apply showMessage_Normal in E as (E & _); exact E.
Qed.

Lemma validateField_required_blank field :
  required field = true -> trim (value field) = [] ->
  (validateField field).2 = Some false /\ invalid field.
Proof.
  intros Hr Hv. unfold invalid, validateField. simpl.
  rewrite Hr, Hv. simpl. split; [done|].
  apply elem_of_classList_add. by left.
Qed.

(** C8.  [validateField] flags a required field that
    is blank and returns false, but [submitPredictionAJAX] does not look at
    the fields: whatever the client did before, and whatever the state of
    its fields, the call sends one POST to [/user/api/predict] with
    [formData] and leaves the fields as they are. *)
Theorem submitPredictionAJAX_sends_unconditionally
    (page : Page) (trace : list Action) (formData : json) :
  (forall field,
     required field = true -> trim (value field) = [] ->
     (validateField field).2 = Some false /\ invalid field) /\
  requests (run page (trace ++ [CallSubmitPredictionAJAX formData]))
  = requests (run page trace) ++ [predictRequest formData] /\
  fields (run page (trace ++ [CallSubmitPredictionAJAX formData]))
  = fields (run page trace).
Proof.
  split; [apply validateField_required_blank|].
  unfold run. by rewrite fold_left_app.
Qed.

(** No gate on the request: on a page whose required age field is blank
    and flagged by [validateField], the request is sent all the same. *)
Lemma submit_while_invalid_counterexample :
  (exists field,
     field ∈ fields page_blank_age /\ required field = true /\
     invalid field /\ (validateField field).2 = Some false) /\
  requests (run page_blank_age [CallSubmitPredictionAJAX sample_formData])
  = [predictRequest sample_formData].
Proof.
  split; [|reflexivity].
  exists (validateField (age_field [])).1.
  split; [by left|]. split; [reflexivity|].
  split; [|reflexivity].
  vm_compute. repeat constructor.
Defined.

(** C8 on the sample page. *)
Lemma submitPredictionAJAX_sends_unconditionally_witness :
  ((validateField (age_field [])).2 = Some false /\
   invalid (age_field [])) /\
  requests (run page_blank_age
              ([CallValidateField 0%nat]
               ++ [CallSubmitPredictionAJAX sample_formData]))
  = requests (run page_blank_age [CallValidateField 0%nat])
    ++ [predictRequest sample_formData].
Proof.
  destruct (submitPredictionAJAX_sends_unconditionally page_blank_age
              [CallValidateField 0%nat] sample_formData) as (H1 & H2 & _).
  split; [|exact H2].
  apply H1; reflexivity.
Defined.

(** ** The response *)

Lemma showMessage_shown page message type children :
  templateLiteral message = Normal message ->
  container page = Some children ->
  exists page',
    showMessage page message type = Normal page' /\
    container page'
    = Some (mkAlert
              (js "alert alert-" ++ type ++ js " alert-dismissible fade show")
              (if jsstring_eqb type (js "success") then js "check-circle"
               else js "exclamation-triangle")
              message :: children) /\
    console page' = console page.
Proof.
  intros Ht Hc. destruct (showMessage_returns page message type Ht)
    as [page' E].
  exists page'. split; [done|].
  apply showMessage_Normal in E as (_ & _ & Hconsole & _ & Hshown).
  split; [|done]. by destruct (Hshown children Hc).
Qed.

Lemma onError_spec page error children :
  container page = Some children ->
  exists page',
    onError page error = Normal (page', None) /\
    container page'
    = Some (alert_danger [Text (js "Network error occurred")] :: children) /\
    console page' = console page ++ [error].
Proof.
  intros Hc.
  destruct (showMessage_shown page [Text (js "Network error occurred")]
              (js "danger") children eq_refl Hc) as (page' & E & H1 & H2).
  exists (console_error page' error).
  unfold onError, showErrorMessage. rewrite E.
  split; [done|]. split; [exact H1|]. simpl. by rewrite H2.
Qed.

(** The [then] handler throws exactly when it does not get through. *)
Lemma onData_answered page data :
  answered data = true ->
  exists page', onData page data = Normal (page', Some data).
Proof.
  unfold answered, onData, showSuccessMessage, showErrorMessage.
  destruct (getProperty data (js "success")) as [success|]; [|done].
  destruct (getProperty data (js "formatted_prediction")) as [fp|];
    [|done].
  destruct (getProperty data (js "error")) as [error|]; [|done].
  destruct (truthy success).
  - intros Hfp. rewrite templateLiteral_Text_Subst, Hfp.
    destruct (showMessage_returns page
                [Text (js "Predicted Premium: "); Subst fp] (js "success"))
      as [page' ->]; [|by eauto].
    by rewrite templateLiteral_Text_Subst, Hfp.
  - destruct (truthy error); simpl; intros Herror.
    + destruct (showMessage_returns page [Subst error] (js "danger"))
        as [page' ->]; [|by eauto].
      by rewrite templateLiteral_Subst, Herror.
    + destruct (showMessage_returns page
                  [Text (js "Prediction failed")] (js "danger"))
        as [page' ->]; by eauto.
Qed.

Lemma getProperty_Throw data key :
  getProperty data key = Throw -> data = JNull.
Proof. by destruct data. Qed.

Lemma onData_not_answered page data :
  answered data = false -> onData page data = Throw.
Proof.
  unfold answered, onData, showSuccessMessage, showErrorMessage.
  destruct (getProperty data (js "success")) as [success|] eqn:Hs;
    [|done].
  destruct (getProperty data (js "formatted_prediction")) as [fp|] eqn:Hf.
  2: { apply getProperty_Throw in Hf as ->. done. }
  destruct (getProperty data (js "error")) as [error|] eqn:He.
  2: { apply getProperty_Throw in He as ->. done. }
  destruct (truthy success).
  - intros Hfp. by rewrite templateLiteral_Text_Subst, Hfp.
  - destruct (truthy error); simpl; [|done]. intros Herror.
    rewrite showMessage_throws; [done|].
    by rewrite templateLiteral_Subst, Herror.
Qed.

(** What goes to the [catch] handler is answered by its alert and
    logged. *)
Lemma settlePredict_caught page r error children :
  caught r = Some error -> container page = Some children ->
  (settlePredict page r).2 = Normal None /\
  container (settlePredict page r).1
  = Some (alert_danger [Text (js "Network error occurred")] :: children) /\
  console (settlePredict page r).1 = console page ++ [error].
Proof.
  intros Hr Hc.
  destruct (onError_spec page error children Hc) as (page' & E & H1 & H2).
  unfold settlePredict.
  destruct r as [| |data]; simpl in Hr.
  - injection Hr as <-. by rewrite E.
  - injection Hr as <-. by rewrite E.
  - destruct (answered data) eqn:Ha; [done|]. injection Hr as <-.
    by rewrite (onData_not_answered page data Ha), E.
Qed.

(** C9.  On a page that has a [.container]: a response whose [success] is
    truthy and whose [formatted_prediction] has a text puts a success
    alert with 'Predicted Premium: ' and [formatted_prediction] in front;
    a response whose [success] is falsy puts an error alert with its
    [error] when that is truthy (a non-empty string, say) and has a text,
    and with 'Prediction failed' when it is falsy (absent, or the empty
    string); a call or a body that fails, a body that is [null] and a
    value to show that has no text are caught, put the error alert
    'Network error occurred' in front and are logged.  On a page without
    a [.container] no response shows anything.  On every page and for
    every response the call sends its one request and no other. *)
Theorem submitPredictionAJAX_response (page : Page) (formData : json) :
  (forall children,
     container page = Some children ->
     (forall data success formatted_prediction,
        getProperty data (js "success") = Normal success ->
        truthy success = true ->
        getProperty data (js "formatted_prediction")
        = Normal formatted_prediction ->
        converts formatted_prediction = true ->
        container (submitPredictionAJAX page formData (Parsed data)).1
        = Some (alert_success
                  [Text (js "Predicted Premium: ");
                   Subst formatted_prediction]
                :: children)) /\
     (forall data success error,
        getProperty data (js "success") = Normal success ->
        truthy success = false ->
        getProperty data (js "error") = Normal error ->
        truthy error = true -> converts error = true ->
        container (submitPredictionAJAX page formData (Parsed data)).1
        = Some (alert_danger [Subst error] :: children)) /\
     (forall data success error,
        getProperty data (js "success") = Normal success ->
        truthy success = false ->
        getProperty data (js "error") = Normal error ->
        truthy error = false ->
        container (submitPredictionAJAX page formData (Parsed data)).1
        = Some (alert_danger [Text (js "Prediction failed")] :: children)) /\
     (forall r error,
        caught r = Some error ->
        container (submitPredictionAJAX page formData r).1
        = Some (alert_danger [Text (js "Network error occurred")]
                :: children) /\
        console (submitPredictionAJAX page formData r).1
        = console page ++ [error])) /\
  (container page = None ->
   forall r,
     container (submitPredictionAJAX page formData r).1 = None /\
     timers (submitPredictionAJAX page formData r).1 = timers page) /\
  (forall r,
     requests (submitPredictionAJAX page formData r).1
     = requests page ++ [predictRequest formData]).
Proof.
  unfold submitPredictionAJAX.
  split; [|split].
  - intros children Hc.
    assert (container (fetchPredict page formData) = Some children) as Hc'
      by exact Hc.
    split; [|split; [|split]].
    + intros data success fp Hs Ht Hf Hfp.
      destruct (showMessage_shown (fetchPredict page formData)
                  [Text (js "Predicted Premium: "); Subst fp] (js "success")
                  children) as (page' & E & H1 & _); [|done|].
      { by rewrite templateLiteral_Text_Subst, Hfp. }
      unfold settlePredict, onData, showSuccessMessage.
      by rewrite Hs, Ht, Hf, templateLiteral_Text_Subst, Hfp, E.
    + intros data success error Hs Ht He Hte Herror.
      destruct (showMessage_shown (fetchPredict page formData)
                  [Subst error] (js "danger") children)
        as (page' & E & H1 & _); [|done|].
      { by rewrite templateLiteral_Subst, Herror. }
      unfold settlePredict, onData, showErrorMessage.
      by rewrite Hs, Ht, He, Hte, E.
    + intros data success error Hs Ht He Hte.
      destruct (showMessage_shown (fetchPredict page formData)
                  [Text (js "Prediction failed")] (js "danger") children)
        as (page' & E & H1 & _); [done..|].
      unfold settlePredict, onData, showErrorMessage.
      by rewrite Hs, Ht, He, Hte, E.
    + intros r error Hr.
      by destruct (settlePredict_caught (fetchPredict page formData) r
                     error children Hr Hc') as (_ & H1 & H2).
  - intros Hc r.
    destruct (settlePredict_shows (fetchPredict page formData) r)
      as (message & type & page' & E & H).
    apply showMessage_Normal in E as (_ & _ & _ & E & _).
    rewrite (E Hc) in H. by destruct H as [-> |[error ->]].
  - intros r. by rewrite settlePredict_requests.
Qed.

(** C9 needs its conditions: on a page without a [.container] no message
    is shown for a successful response; a response whose [error] is the
    empty string is answered with 'Prediction failed', not with its
    [error]; and a successful response whose [formatted_prediction] is an
    object with a property [toString] is answered with 'Network error
    occurred', not with a success message. *)
Lemma submitPredictionAJAX_response_counterexample :
  (submitPredictionAJAX page_without_container sample_formData
     (Parsed response_success)).1
  = mkPage [] None [predictRequest sample_formData] [] [] /\
  container
    (submitPredictionAJAX page_blank_age sample_formData
       (Parsed response_empty_error)).1
  = Some [alert_danger [Text (js "Prediction failed")]] /\
  getProperty response_no_text (js "success") = Normal (Some (JBool true)) /\
  container
    (submitPredictionAJAX page_blank_age sample_formData
       (Parsed response_no_text)).1
  = Some [alert_danger [Text (js "Network error occurred")]].
Proof. repeat split; reflexivity. Defined.

(** C9 on the sample page. *)
Lemma submitPredictionAJAX_response_witness :
  container
    (submitPredictionAJAX page_blank_age sample_formData
       (Parsed response_success)).1
  = Some [alert_success
            [Text (js "Predicted Premium: ");
             Subst (Some (JString (js "$4,200.00")))]] /\
  container
    (submitPredictionAJAX page_blank_age sample_formData
       (Parsed response_error)).1
  = Some [alert_danger [Subst (Some (JString (js "Model not loaded")))]] /\
  container
    (submitPredictionAJAX page_blank_age sample_formData
       (Parsed response_empty_error)).1
  = Some [alert_danger [Text (js "Prediction failed")]] /\
  (container (submitPredictionAJAX page_blank_age sample_formData NotJSON).1
   = Some [alert_danger [Text (js "Network error occurred")]] /\
   console (submitPredictionAJAX page_blank_age sample_formData NotJSON).1
   = [SyntaxError]) /\
  (container
     (submitPredictionAJAX page_without_container sample_formData
        (Parsed response_success)).1 = None /\
   timers
     (submitPredictionAJAX page_without_container sample_formData
        (Parsed response_success)).1 = []) /\
  requests (submitPredictionAJAX page_blank_age sample_formData Rejected).1
  = [predictRequest sample_formData].
Proof.
  destruct (submitPredictionAJAX_response page_blank_age sample_formData)
    as (H & _ & H6).
  destruct (H [] eq_refl) as (H1 & H2 & H3 & H4).
  destruct (submitPredictionAJAX_response page_without_container
              sample_formData) as (_ & H5 & _).
  split; [by apply (H1 response_success (Some (JBool true)))|].
  split; [by apply (H2 response_error (Some (JBool false)))|].
  split; [by apply (H3 response_empty_error (Some (JBool false))
                      (Some (JString [])))|].
  split; [by apply (H4 NotJSON SyntaxError)|].
  split; [by apply H5|apply H6].
Defined.

(** * Further properties of the client script *)

(** ** The validators and the rest of the field *)

Lemma other_classes_app l1 l2 :
  other_classes (l1 ++ l2) = other_classes l1 ++ other_classes l2.
Proof. unfold other_classes. apply filter_app. Qed.

Lemma other_classes_add c input :
  c = is_valid \/ c = is_invalid ->
  other_classes (classList (classList_add c input))
  = other_classes (classList input).
Proof.
  intros Hc. unfold classList_add. case_bool_decide; [done|]. simpl.
  rewrite other_classes_app. unfold other_classes at 2.
  rewrite filter_cons_False, filter_nil by tauto. apply app_nil_r.
Qed.

Lemma other_classes_remove c input :
  c = is_valid \/ c = is_invalid ->
  other_classes (classList (classList_remove c input))
  = other_classes (classList input).
Proof.
  intros Hc. unfold classList_remove, other_classes. simpl.
  induction (classList input) as [|x l IH]; [done|].
  destruct (decide (x = c)) as [->|Hx].
  - rewrite (filter_cons_False (fun x => x <> c)) by tauto.
    rewrite filter_cons_False; [done|]. destruct Hc as [-> | ->]; tauto.
  - rewrite (filter_cons_True (fun x => x <> c)) by done.
    destruct (decide (x <> is_valid /\ x <> is_invalid)).
    + rewrite !filter_cons_True by done. by rewrite IH.
    + rewrite !filter_cons_False by done. done.
Qed.

Lemma same_field_refl input : same_field input input.
Proof. by repeat split. Qed.

Lemma same_field_trans a b c :
  same_field a b -> same_field b c -> same_field a c.
Proof.
  intros (?&?&?&?&?) (?&?&?&?&?). repeat split; congruence.
Qed.

Lemma same_field_mark on off text input :
  on = is_valid \/ on = is_invalid -> off = is_valid \/ off = is_invalid ->
  same_field input
    (set_feedback (classList_remove off (classList_add on input)) text).
Proof.
  intros Hon Hoff. repeat split; simpl; try by (unfold classList_add;
    case_bool_decide).
  change (filter (fun x => x <> off) (classList (classList_add on input)))
    with (classList (classList_remove off (classList_add on input))).
  by rewrite other_classes_remove, other_classes_add.
Qed.

Lemma same_field_feedbackElement input :
  same_field input (feedbackElement input).
Proof. unfold feedbackElement. destruct (feedback input); by repeat split. Qed.

Lemma same_field_set_borderColor input c :
  same_field input (set_borderColor input c).
Proof. by repeat split. Qed.

Lemma validateAge_same_field input : same_field input (validateAge input).
Proof.
  unfold validateAge.
  repeat case_match; try apply same_field_feedbackElement;
    (eapply same_field_trans;
     [apply same_field_feedbackElement|apply same_field_mark; auto]).
Qed.

Lemma validateBMI_same_field input : same_field input (validateBMI input).
Proof.
  unfold validateBMI.
  repeat case_match; try apply same_field_feedbackElement;
    try (eapply same_field_trans; [|apply same_field_set_borderColor]);
    (eapply same_field_trans;
     [apply same_field_feedbackElement|apply same_field_mark; auto]).
Qed.

Lemma validateEmail_same_field input : same_field input (validateEmail input).
Proof.
  unfold validateEmail.
  case_match;
    (eapply same_field_trans;
     [apply same_field_feedbackElement|apply same_field_mark; auto]).
Qed.

Lemma same_field_classList_add c input :
  c = is_valid \/ c = is_invalid -> same_field input (classList_add c input).
Proof.
  intros Hc. repeat split; try by (unfold classList_add; case_bool_decide).
  by apply other_classes_add.
Qed.

Lemma same_field_classList_remove c input :
  c = is_valid \/ c = is_invalid ->
  same_field input (classList_remove c input).
Proof. intros Hc. repeat split. by apply other_classes_remove. Qed.

(** The field without its validation flags, as [validateField] first makes
    it. *)
Lemma same_field_strip input :
  same_field input
    (classList_remove is_invalid (classList_remove is_valid input)).
Proof.
  eapply same_field_trans; apply same_field_classList_remove; auto.
Qed.

Lemma validateField_same_field field :
  same_field field (validateField field).1.
Proof.
  unfold validateField.
  repeat case_match; simpl;
    (eapply same_field_trans; [apply same_field_strip|]);
    auto using same_field_classList_add, validateAge_same_field,
      validateBMI_same_field, validateEmail_same_field, same_field_refl.
Qed.

(** X1. The validators change the validation flags, the feedback and the
    border only: after [validateAge], [validateBMI], [validateEmail] and
    [validateField] the field has the value, the name, the type and the
    required attribute it had, and its other classes in their order. *)
Theorem validators_keep_the_field (field : Element) :
  same_field field (validateAge field) /\
  same_field field (validateBMI field) /\
  same_field field (validateEmail field) /\
  same_field field (validateField field).1.
Proof.
  auto using validateAge_same_field, validateBMI_same_field,
    validateEmail_same_field, validateField_same_field.
Qed.

(** ** The two validation flags *)

Lemma is_invalid_ne_is_valid : is_invalid <> is_valid.
Proof. discriminate. Qed.

(** After one flag is set and the other cleared, the field has exactly the
    one. *)
Lemma mark_flags on off text input :
  on <> off ->
  (on ∈ classList
          (set_feedback (classList_remove off (classList_add on input)) text))
  /\ (off ∉ classList
          (set_feedback (classList_remove off (classList_add on input))
             text)).
Proof.
  intros Hne.
  change (classList (set_feedback ?e text)) with (classList e).
  rewrite !elem_of_classList_remove, !elem_of_classList_add. tauto.
Qed.

Lemma strip_no_flag input :
  no_flag (classList_remove is_invalid (classList_remove is_valid input)).
Proof.
  unfold no_flag. rewrite !elem_of_classList_remove. tauto.
Qed.

Lemma validateAge_both_flags input :
  both_flags (validateAge input) -> both_flags input.
Proof.
  unfold both_flags, validateAge. repeat case_match.
  - intros [Hv Hi].
    by destruct (mark_flags is_invalid is_valid
                   (js "Age must be between 18 and 100 years.")
                   (feedbackElement input) is_invalid_ne_is_valid).
  - intros [Hv Hi].
    by destruct (mark_flags is_valid is_invalid []
                   (feedbackElement input) is_valid_ne_is_invalid).
  - by rewrite feedbackElement_classList.
Qed.

Lemma validateBMI_both_flags input :
  both_flags (validateBMI input) -> both_flags input.
Proof.
  unfold both_flags, validateBMI.
  repeat case_match;
    try change (classList (set_borderColor ?e ?c)) with (classList e).
  1: { intros [Hv Hi].
       by destruct (mark_flags is_invalid is_valid
                      (js "BMI must be between 10 and 50.")
                      (feedbackElement input) is_invalid_ne_is_valid). }
  5: by rewrite feedbackElement_classList.
  all: intros [Hv Hi];
    by destruct (mark_flags is_valid is_invalid
                   (getBMICategory (parseFloat (value input)))
                   (feedbackElement input) is_valid_ne_is_invalid).
Qed.

Lemma validateEmail_one_flag input :
  ((is_valid ∈ classList (validateEmail input))
   /\ (is_invalid ∉ classList (validateEmail input)))
  \/ ((is_invalid ∈ classList (validateEmail input))
      /\ (is_valid ∉ classList (validateEmail input))).
Proof.
  unfold validateEmail. case_match.
  - right. apply mark_flags, is_invalid_ne_is_valid.
  - left. apply mark_flags, is_valid_ne_is_invalid.
Qed.

Lemma no_flag_not_both input : no_flag input -> ~ both_flags input.
Proof. unfold no_flag, both_flags. tauto. Qed.

Lemma validateField_not_both field : ~ both_flags (validateField field).1.
Proof.
  pose proof (strip_no_flag field) as Hs.
  unfold validateField. repeat case_match; simpl.
  - unfold both_flags. rewrite !elem_of_classList_add.
    destruct Hs as [Hs1 Hs2]. intros [[E|?] _]; [|done].
    by apply is_valid_ne_is_invalid.
  - intros Hb%validateAge_both_flags. by apply (no_flag_not_both _ Hs).
  - intros Hb%validateBMI_both_flags. by apply (no_flag_not_both _ Hs).
  - destruct (validateEmail_one_flag
                (classList_remove is_invalid
                   (classList_remove is_valid field)))
      as [[_ Hn]|[_ Hn]]; unfold both_flags; tauto.
  - by apply no_flag_not_both.
  - unfold both_flags. rewrite !elem_of_classList_add.
    destruct Hs as [Hs1 Hs2]. intros [_ [E|?]]; [|done].
    by apply is_invalid_ne_is_valid.
Qed.

(** X2. A field never ends with both flags unless it had both and was not
    judged: [validateField] never leaves [is-valid] and [is-invalid]
    together; [validateEmail] always leaves exactly one of them;
    [validateAge] and [validateBMI] leave both only on a field that came
    with both. *)
Theorem validation_flags_exclusive (field : Element) :
  ~ both_flags (validateField field).1 /\
  (((is_valid ∈ classList (validateEmail field))
    /\ (is_invalid ∉ classList (validateEmail field)))
   \/ ((is_invalid ∈ classList (validateEmail field))
       /\ (is_valid ∉ classList (validateEmail field)))) /\
  (both_flags (validateAge field) -> both_flags field) /\
  (both_flags (validateBMI field) -> both_flags field).
Proof.
  auto using validateField_not_both, validateEmail_one_flag,
    validateAge_both_flags, validateBMI_both_flags.
Qed.

(** X2 on a blank field that came with both flags: [validateAge] does not
    judge it and leaves both. *)
Lemma validation_flags_exclusive_witness :
  both_flags (validateAge field_both_flags) /\ both_flags field_both_flags.
Proof.
  assert (both_flags (validateAge field_both_flags)) as H.
  { split; apply (bool_decide_unpack _); reflexivity. }
  split; [exact H|].
  exact (proj1 (proj2 (proj2 (validation_flags_exclusive field_both_flags)))
           H).
Defined.

(** ** Validating twice *)

Lemma Element_eq (a b : Element) :
  value a = value b -> name a = name b -> type a = type b ->
  required a = required b -> classList a = classList b ->
  borderColor a = borderColor b -> feedback a = feedback b -> a = b.
Proof. destruct a, b. simpl. by intros -> -> -> -> -> -> ->. Qed.

Lemma classList_classList_add c input :
  classList (classList_add c input)
  = if bool_decide (c ∈ classList input) then classList input
    else classList input ++ [c].
Proof. unfold classList_add. by case_bool_decide. Qed.

Lemma classList_add_present c input :
  c ∈ classList input -> classList_add c input = input.
Proof. intros H. unfold classList_add. by rewrite bool_decide_eq_true_2. Qed.

Lemma filter_ne_idem (c : jsstring) (l : list jsstring) :
  filter (fun x => x <> c) (filter (fun x => x <> c) l)
  = filter (fun x => x <> c) l.
Proof.
  induction l as [|x l IH]; [done|].
  destruct (decide (x = c)) as [->|Hx].
  - by rewrite filter_cons_False by tauto.
  - rewrite (filter_cons_True (fun x => x <> c) x l) by done.
    rewrite filter_cons_True by done. by rewrite IH.
Qed.

Lemma filter_ne_absent (c : jsstring) (l : list jsstring) :
  c ∉ l -> filter (fun x => x <> c) l = l.
Proof.
  induction l as [|x l IH]; [done|].
  rewrite not_elem_of_cons. intros [Hx Hl].
  rewrite filter_cons_True by done. by rewrite IH.
Qed.

(** Setting a flag, clearing the other and writing the feedback a second
    time changes nothing. *)
Lemma mark_again on off text input :
  on <> off ->
  set_feedback
    (classList_remove off
       (classList_add on
          (set_feedback (classList_remove off (classList_add on input))
             text)))
    text
  = set_feedback (classList_remove off (classList_add on input)) text.
Proof.
  intros Hne.
  rewrite (classList_add_present on).
  - apply Element_eq; try reflexivity. simpl. apply filter_ne_idem.
  - by apply mark_flags.
Qed.

Lemma feedbackElement_present input :
  is_Some (feedback input) -> feedbackElement input = input.
Proof. intros [t Ht]. unfold feedbackElement. by rewrite Ht. Qed.

Lemma feedbackElement_again input :
  feedbackElement (feedbackElement input) = feedbackElement input.
Proof.
  apply feedbackElement_present. rewrite feedbackElement_feedback. eauto.
Qed.

Lemma mark_value on off text input :
  value (set_feedback (classList_remove off (classList_add on input)) text)
  = value input.
Proof. simpl. unfold classList_add. by case_bool_decide. Qed.

Lemma validateAge_again input :
  validateAge (validateAge input) = validateAge input.
Proof.
  destruct (js_lt (parseInt (value input)) num_18
            || js_gt (parseInt (value input)) num_100) eqn:H1;
    [|destruct (js_ge (parseInt (value input)) num_18
                && js_le (parseInt (value input)) num_100) eqn:H2].
  - assert (validateAge input
            = set_feedback
                (classList_remove is_valid
                   (classList_add is_invalid (feedbackElement input)))
                (js "Age must be between 18 and 100 years.")) as ->
      by (unfold validateAge; by rewrite H1).
    unfold validateAge.
    rewrite mark_value, feedbackElement_value, H1.
    rewrite feedbackElement_present by (simpl; eauto).
    apply mark_again, is_invalid_ne_is_valid.
  - assert (validateAge input
            = set_feedback
                (classList_remove is_invalid
                   (classList_add is_valid (feedbackElement input))) [])
      as -> by (unfold validateAge; by rewrite H1, H2).
    unfold validateAge.
    rewrite mark_value, feedbackElement_value, H1, H2.
    rewrite feedbackElement_present by (simpl; eauto).
    apply mark_again, is_valid_ne_is_invalid.
  - assert (validateAge input = feedbackElement input) as ->
      by (unfold validateAge; by rewrite H1, H2).
    unfold validateAge. rewrite feedbackElement_value, H1, H2.
    apply feedbackElement_again.
Qed.

Lemma validateEmail_again input :
  validateEmail (validateEmail input) = validateEmail input.
Proof.
  destruct (test emailRegex (value input)) eqn:H1.
  - assert (validateEmail input
            = set_feedback
                (classList_remove is_invalid
                   (classList_add is_valid (feedbackElement input))) [])
      as -> by (unfold validateEmail; by rewrite H1).
    unfold validateEmail.
    rewrite mark_value, feedbackElement_value, H1. simpl negb. cbv iota.
    rewrite feedbackElement_present by (simpl; eauto).
    apply mark_again, is_valid_ne_is_invalid.
  - assert (validateEmail input
            = set_feedback
                (classList_remove is_valid
                   (classList_add is_invalid (feedbackElement input)))
                (js "Please enter a valid email address.")) as ->
      by (unfold validateEmail; by rewrite H1).
    unfold validateEmail.
    rewrite mark_value, feedbackElement_value, H1. simpl negb. cbv iota.
    rewrite feedbackElement_present by (simpl; eauto).
    apply mark_again, is_invalid_ne_is_valid.
Qed.

(** The same with the border set after the feedback. *)
Lemma mark_border_again on off text c input :
  on <> off ->
  set_borderColor
    (set_feedback
       (classList_remove off
          (classList_add on
             (set_borderColor
                (set_feedback (classList_remove off (classList_add on input))
                   text) c)))
       text) c
  = set_borderColor
      (set_feedback (classList_remove off (classList_add on input)) text) c.
Proof.
  intros Hne.
  rewrite (classList_add_present on).
  - apply Element_eq; try reflexivity. simpl. apply filter_ne_idem.
  - by apply mark_flags.
Qed.

Lemma validateBMI_accepted input :
  in_range num_10 num_50 (parseFloat (value input)) = true ->
  validateBMI input
  = set_borderColor
      (set_feedback
         (classList_remove is_invalid
            (classList_add is_valid (feedbackElement input)))
         (getBMICategory (parseFloat (value input))))
      (bmi_colour (parseFloat (value input))).
Proof.
  intros H. pose proof (in_range_not_out _ _ _ H) as Hout.
  unfold in_range, out_of_range, validateBMI, bmi_colour in *.
  rewrite Hout, H. by repeat case_match.
Qed.

Lemma validateBMI_again input :
  validateBMI (validateBMI input) = validateBMI input.
Proof.
  destruct (out_of_range num_10 num_50 (parseFloat (value input))) eqn:H1;
    [|destruct (in_range num_10 num_50 (parseFloat (value input))) eqn:H2].
  - assert (validateBMI input
            = set_feedback
                (classList_remove is_valid
                   (classList_add is_invalid (feedbackElement input)))
                (js "BMI must be between 10 and 50.")) as ->
      by (unfold out_of_range, validateBMI in *; by rewrite H1).
    unfold out_of_range, validateBMI in *.
    rewrite mark_value, feedbackElement_value, H1.
    rewrite feedbackElement_present by (simpl; eauto).
    apply mark_again, is_invalid_ne_is_valid.
  - rewrite (validateBMI_accepted input H2).
    rewrite validateBMI_accepted;
      change (value (set_borderColor ?e ?c)) with (value e);
      rewrite mark_value, feedbackElement_value; [|done].
    rewrite feedbackElement_present by (simpl; eauto).
    apply mark_border_again, is_valid_ne_is_invalid.
  - assert (validateBMI input = feedbackElement input) as ->
      by (unfold out_of_range, in_range, validateBMI in *;
          by rewrite H1, H2).
    unfold out_of_range, in_range, validateBMI in *.
    rewrite feedbackElement_value, H1, H2.
    apply feedbackElement_again.
Qed.

(** *** [validateField] twice *)

Lemma strip_clean input : no_flag input -> strip input = input.
Proof.
  intros [H1 H2]. unfold strip.
  apply Element_eq; try reflexivity. simpl.
  by rewrite (filter_ne_absent is_valid), (filter_ne_absent is_invalid).
Qed.

Lemma strip_classes input :
  classList (strip input)
  = filter (fun x => x <> is_invalid)
      (filter (fun x => x <> is_valid) (classList input)).
Proof. reflexivity. Qed.

Lemma strip_add c input :
  c = is_valid \/ c = is_invalid -> no_flag input ->
  strip (classList_add c input) = input.
Proof.
  intros Hc [H1 H2].
  apply Element_eq; try (unfold classList_add; by case_bool_decide).
  rewrite strip_classes, classList_classList_add.
  rewrite bool_decide_eq_false_2 by (destruct Hc as [-> | ->]; done).
  rewrite !filter_app.
  rewrite (filter_ne_absent is_valid (classList input)) by done.
  rewrite (filter_ne_absent is_invalid (classList input)) by done.
  destruct Hc as [-> | ->].
  - rewrite filter_cons_False, filter_nil by tauto. simpl.
    apply app_nil_r.
  - rewrite filter_cons_True, filter_nil by apply is_invalid_ne_is_valid.
    rewrite filter_cons_False, filter_nil by tauto. apply app_nil_r.
Qed.

Lemma no_flag_feedbackElement input :
  no_flag input -> no_flag (feedbackElement input).
Proof. unfold no_flag. by rewrite feedbackElement_classList. Qed.

Lemma strip_filter off (l : list jsstring) :
  off = is_valid \/ off = is_invalid ->
  filter (fun x => x <> is_invalid)
    (filter (fun x => x <> is_valid) (filter (fun x => x <> off) l))
  = filter (fun x => x <> is_invalid) (filter (fun x => x <> is_valid) l).
Proof.
  intros Hoff. induction l as [|x l IH]; [done|].
  rewrite !filter_cons.
  destruct Hoff as [-> | ->];
    repeat (case_decide; rewrite ?filter_cons; try tauto); by rewrite IH.
Qed.

(** Setting a flag on a field without flags, then removing the flags,
    leaves the feedback. *)
Lemma strip_mark on off text input :
  on = is_valid \/ on = is_invalid -> off = is_valid \/ off = is_invalid ->
  no_flag input ->
  strip (set_feedback (classList_remove off (classList_add on input)) text)
  = set_feedback input text.
Proof.
  intros Hon Hoff Hn.
  assert (strip (classList_remove off (classList_add on input)) = input)
    as Hs.
  { rewrite <- (strip_add on input Hon Hn) at 2.
    apply Element_eq; try reflexivity.
    rewrite !strip_classes. simpl. by apply strip_filter. }
  apply Element_eq; try (rewrite <- Hs at 2; reflexivity).
Qed.

Lemma mark_set_feedback on off text text' input :
  set_feedback
    (classList_remove off (classList_add on (set_feedback input text'))) text
  = set_feedback (classList_remove off (classList_add on input)) text.
Proof.
  apply Element_eq; simpl; try reflexivity;
    unfold classList_add; simpl; by case_bool_decide.
Qed.

Lemma validateAge_strip_again input :
  no_flag input -> validateAge (strip (validateAge input)) = validateAge input.
Proof.
  intros Hn%no_flag_feedbackElement.
  destruct (js_lt (parseInt (value input)) num_18
            || js_gt (parseInt (value input)) num_100) eqn:H1;
    [|destruct (js_ge (parseInt (value input)) num_18
                && js_le (parseInt (value input)) num_100) eqn:H2].
  - assert (validateAge input
            = set_feedback
                (classList_remove is_valid
                   (classList_add is_invalid (feedbackElement input)))
                (js "Age must be between 18 and 100 years.")) as ->
      by (unfold validateAge; by rewrite H1).
    rewrite strip_mark by auto.
    unfold validateAge.
    change (value (set_feedback ?e ?t)) with (value e).
    rewrite feedbackElement_value, H1.
    rewrite feedbackElement_present by (simpl; eauto).
    apply mark_set_feedback.
  - assert (validateAge input
            = set_feedback
                (classList_remove is_invalid
                   (classList_add is_valid (feedbackElement input))) [])
      as -> by (unfold validateAge; by rewrite H1, H2).
    rewrite strip_mark by auto.
    unfold validateAge.
    change (value (set_feedback ?e ?t)) with (value e).
    rewrite feedbackElement_value, H1, H2.
    rewrite feedbackElement_present by (simpl; eauto).
    apply mark_set_feedback.
  - assert (validateAge input = feedbackElement input) as ->
      by (unfold validateAge; by rewrite H1, H2).
    rewrite strip_clean by done.
    unfold validateAge. rewrite feedbackElement_value, H1, H2.
    apply feedbackElement_again.
Qed.

Lemma validateEmail_strip_again input :
  no_flag input ->
  validateEmail (strip (validateEmail input)) = validateEmail input.
Proof.
  intros Hn%no_flag_feedbackElement.
  destruct (test emailRegex (value input)) eqn:H1.
  - assert (validateEmail input
            = set_feedback
                (classList_remove is_invalid
                   (classList_add is_valid (feedbackElement input))) [])
      as -> by (unfold validateEmail; by rewrite H1).
    rewrite strip_mark by auto.
    unfold validateEmail.
    change (value (set_feedback ?e ?t)) with (value e).
    rewrite feedbackElement_value, H1. simpl negb. cbv iota.
    rewrite feedbackElement_present by (simpl; eauto).
    apply mark_set_feedback.
  - assert (validateEmail input
            = set_feedback
                (classList_remove is_valid
                   (classList_add is_invalid (feedbackElement input)))
                (js "Please enter a valid email address.")) as ->
      by (unfold validateEmail; by rewrite H1).
    rewrite strip_mark by auto.
    unfold validateEmail.
    change (value (set_feedback ?e ?t)) with (value e).
    rewrite feedbackElement_value, H1. simpl negb. cbv iota.
    rewrite feedbackElement_present by (simpl; eauto).
    apply mark_set_feedback.
Qed.

Lemma strip_set_borderColor input c :
  strip (set_borderColor input c) = set_borderColor (strip input) c.
Proof. reflexivity. Qed.

Lemma mark_set_border on off text text' c c' input :
  set_borderColor
    (set_feedback
       (classList_remove off
          (classList_add on (set_borderColor (set_feedback input text') c')))
       text) c
  = set_borderColor
      (set_feedback (classList_remove off (classList_add on input)) text) c.
Proof.
  apply Element_eq; simpl; try reflexivity;
    unfold classList_add; simpl; by case_bool_decide.
Qed.

Lemma validateBMI_strip_again input :
  no_flag input -> validateBMI (strip (validateBMI input)) = validateBMI input.
Proof.
  intros Hn%no_flag_feedbackElement.
  destruct (out_of_range num_10 num_50 (parseFloat (value input))) eqn:H1;
    [|destruct (in_range num_10 num_50 (parseFloat (value input))) eqn:H2].
  - assert (validateBMI input
            = set_feedback
                (classList_remove is_valid
                   (classList_add is_invalid (feedbackElement input)))
                (js "BMI must be between 10 and 50.")) as ->
      by (unfold out_of_range, validateBMI in *; by rewrite H1).
    rewrite strip_mark by auto.
    unfold out_of_range, validateBMI in *.
    change (value (set_feedback ?e ?t)) with (value e).
    rewrite feedbackElement_value, H1.
    rewrite feedbackElement_present by (simpl; eauto).
    apply mark_set_feedback.
  - rewrite (validateBMI_accepted input H2).
    rewrite strip_set_borderColor, strip_mark by auto.
    rewrite validateBMI_accepted;
      change (value (set_borderColor ?e ?c)) with (value e);
      change (value (set_feedback ?e ?t)) with (value e);
      rewrite feedbackElement_value; [|done].
    rewrite feedbackElement_present by (simpl; eauto).
    apply mark_set_border.
  - assert (validateBMI input = feedbackElement input) as ->
      by (unfold out_of_range, in_range, validateBMI in *;
          by rewrite H1, H2).
    rewrite strip_clean by done.
    unfold out_of_range, in_range, validateBMI in *.
    rewrite feedbackElement_value, H1, H2.
    apply feedbackElement_again.
Qed.

Lemma validateField_strip field :
  validateField field
  = (let value := trim (value field) in
     if required field && bool_decide (value = []) then
       (classList_add is_invalid (strip field), Some false)
     else if jsstring_eqb (name field) (js "age") then
       (validateAge (strip field), None)
     else if jsstring_eqb (name field) (js "bmi") then
       (validateBMI (strip field), None)
     else if jsstring_eqb (name field) (js "email") then
       (validateEmail (strip field), None)
     else
       (if bool_decide (value = []) then strip field
        else classList_add is_valid (strip field), Some true)).
Proof. reflexivity. Qed.

Lemma validateField_again field :
  validateField (validateField field).1 = validateField field.
Proof.
  destruct (validateField_same_field field) as (Hv & Hn & _ & Hr & _).
  pose proof (strip_no_flag field) as Hs. fold (strip field) in Hs.
  rewrite (validateField_strip (validateField field).1).
  rewrite Hv, Hn, Hr. rewrite (validateField_strip field). cbv zeta.
  destruct (required field && bool_decide (trim (value field) = []));
    [|destruct (jsstring_eqb (name field) (js "age"));
      [|destruct (jsstring_eqb (name field) (js "bmi"));
        [|destruct (jsstring_eqb (name field) (js "email"));
          [|destruct (bool_decide (trim (value field) = []))]]]];
    cbn [fst]; f_equal.
  - by rewrite strip_add by auto.
  - by apply validateAge_strip_again.
  - by apply validateBMI_strip_again.
  - by apply validateEmail_strip_again.
  - by rewrite strip_clean.
  - by rewrite strip_add by auto.
Qed.

(** X3. Validating twice is validating once: [validateAge], [validateBMI],
    [validateEmail] and [validateField] applied to their own result give
    that result again (the same flags, feedback and border, and for
    [validateField] the same return value). *)
Theorem validation_idempotent (field : Element) :
  validateAge (validateAge field) = validateAge field /\
  validateBMI (validateBMI field) = validateBMI field /\
  validateEmail (validateEmail field) = validateEmail field /\
  validateField (validateField field).1 = validateField field.
Proof.
  auto using validateAge_again, validateBMI_again, validateEmail_again,
    validateField_again.
Qed.

(** ** Blank values *)

Lemma trimStart_nil s :
  trimStart s = [] <-> Forall (fun c => isWhiteSpace c = true) s.
Proof.
  induction s as [|c s IH]; simpl.
  - split; [constructor|done].
  - destruct (isWhiteSpace c) eqn:Hc.
    + rewrite IH. split; [by constructor|by inversion 1].
    + split; [done|]. inversion 1; congruence.
Qed.

Lemma trimStart_head s c r :
  trimStart s = c :: r -> isWhiteSpace c = false.
Proof.
  induction s as [|x s IH]; simpl; [done|].
  destruct (isWhiteSpace x) eqn:Hx; [done|]. by intros [= <- _].
Qed.

(** A blank value is white space from end to end. *)
Lemma blank_white s :
  blank s <-> Forall (fun c => isWhiteSpace c = true) s.
Proof.
  unfold blank, trim, trimEnd. split.
  - intros H. apply trimStart_nil.
    destruct (trimStart s) as [|c r] eqn:Ht; [done|exfalso].
    apply trimStart_head in Ht.
    assert (trimStart (rev (c :: r)) = []) as Hr.
    { destruct (trimStart (rev (c :: r))); [done|].
      simpl in H. by apply app_eq_nil in H as [_ ?]. }
    apply trimStart_nil in Hr. rewrite Forall_forall in Hr.
    specialize (Hr c). rewrite Ht in Hr. discriminate Hr.
    simpl. apply elem_of_app. right. by left.
  - intros H%trimStart_nil. by rewrite H.
Qed.

Lemma blank_parseInt s : blank s -> parseInt s = NaN.
Proof.
  intros H%blank_white%trimStart_nil. unfold parseInt. by rewrite H.
Qed.

Lemma blank_parseFloat s : blank s -> parseFloat s = NaN.
Proof.
  intros H%blank_white%trimStart_nil. unfold parseFloat. by rewrite H.
Qed.

Lemma blank_not_email s : blank s -> test emailRegex s = false.
Proof.
  intros H%blank_white.
  destruct (test emailRegex s) eqn:Ht; [exfalso|done].
  apply emailRegex_shape in Ht as (l & d & t & -> & _).
  apply Forall_app in H as [_ H]. simpl in H. by inversion H.
Qed.

Lemma validateAge_NaN input :
  parseInt (value input) = NaN -> validateAge input = feedbackElement input.
Proof.
  intros H. destruct (NaN_neither _ num_18 num_100 H) as [H1 H2].
  unfold out_of_range, in_range, validateAge in *. by rewrite H1, H2.
Qed.

Lemma validateBMI_NaN input :
  parseFloat (value input) = NaN -> validateBMI input = feedbackElement input.
Proof.
  intros H. destruct (NaN_neither _ num_10 num_50 H) as [H1 H2].
  unfold out_of_range, in_range, validateBMI in *. by rewrite H1, H2.
Qed.

Lemma value_strip field : value (strip field) = value field.
Proof. reflexivity. Qed.

(** X4. A field that is not required and is left blank (empty or white
    space only) is treated by [validateField] according to its name: an
    [age] or [bmi] field ends without any flag, with the feedback text it
    had, while an [email] field is flagged [is-invalid] with
    'Please enter a valid email address.'. *)
Theorem validateField_optional_blank (field : Element) :
  required field = false -> blank (value field) ->
  (name field = js "age" \/ name field = js "bmi" ->
   no_flag (validateField field).1 /\
   feedbackText (validateField field).1 = feedbackText field /\
   (validateField field).2 = None) /\
  (name field = js "email" ->
   marked_invalid (js "Please enter a valid email address.") field
     (validateField field).1 /\
   (validateField field).2 = None).
Proof.
  intros Hr Hb. rewrite validateField_strip. cbv zeta. rewrite Hr. simpl.
  pose proof (strip_no_flag field) as Hs. fold (strip field) in Hs.
  split.
  - intros [Hn|Hn]; rewrite Hn; simpl.
    + rewrite validateAge_NaN by by apply blank_parseInt.
      split; [by apply no_flag_feedbackElement|]. split; [|done].
      unfold feedbackText. by rewrite feedbackElement_feedback.
    + rewrite validateBMI_NaN by by apply blank_parseFloat.
      split; [by apply no_flag_feedbackElement|]. split; [|done].
      unfold feedbackText. by rewrite feedbackElement_feedback.
  - intros Hn. rewrite Hn. simpl. split; [|done].
    unfold validateEmail. rewrite value_strip, (blank_not_email _ Hb). simpl.
    apply set_feedback_marked; [apply is_invalid_ne_is_valid|].
    by rewrite feedbackElement_value.
Qed.

(** X4 on blank optional fields. *)
Lemma validateField_optional_blank_witness :
  no_flag
    (validateField
       (mkElement (js "  ") (js "age") (js "number") false [] [] None)).1 /\
  marked_invalid (js "Please enter a valid email address.")
    (mkElement [] (js "email") (js "email") false [] [] None)
    (validateField
       (mkElement [] (js "email") (js "email") false [] [] None)).1.
Proof.
  split.
  - apply (validateField_optional_blank
             (mkElement (js "  ") (js "age") (js "number") false [] [] None));
      [reflexivity|reflexivity|by left].
  - apply (validateField_optional_blank
             (mkElement [] (js "email") (js "email") false [] [] None));
      reflexivity.
Defined.

(** X5. The flag of the last judgement stays when the value stops being a
    number: a field that [validateAge] (or [validateBMI]) has marked valid
    still carries [is-valid], and one it has marked invalid still carries
    [is-invalid] and its message, after the value is replaced by one that
    does not parse and the validator runs again. *)
Theorem stale_flag (field : Element) (v : jsstring) :
  (parseInt v = NaN ->
   (in_range num_18 num_100 (parseInt (value field)) = true ->
    is_valid ∈ classList (validateAge (set_value (validateAge field) v))) /\
   (out_of_range num_18 num_100 (parseInt (value field)) = true ->
    (is_invalid ∈ classList (validateAge (set_value (validateAge field) v)))
    /\ feedback (validateAge (set_value (validateAge field) v))
       = Some (js "Age must be between 18 and 100 years."))) /\
  (parseFloat v = NaN ->
   (in_range num_10 num_50 (parseFloat (value field)) = true ->
    is_valid ∈ classList (validateBMI (set_value (validateBMI field) v))) /\
   (out_of_range num_10 num_50 (parseFloat (value field)) = true ->
    (is_invalid ∈ classList (validateBMI (set_value (validateBMI field) v)))
    /\ feedback (validateBMI (set_value (validateBMI field) v))
       = Some (js "BMI must be between 10 and 50."))).
Proof.
  split; intros Hv.
  - rewrite validateAge_NaN by done. split; intros H.
    + apply validateAge_in_range in H as (H1 & _ & H3 & _).
      by rewrite feedbackElement_classList.
    + apply validateAge_out_of_range in H as (H1 & _ & H3 & _).
      rewrite feedbackElement_classList. split; [done|].
      unfold feedbackElement. simpl. by rewrite H3.
  - rewrite validateBMI_NaN by done. split; intros H.
    + apply validateBMI_in_range in H as (H1 & _ & H3 & _).
      by rewrite feedbackElement_classList.
    + apply validateBMI_out_of_range in H as (H1 & _ & H3 & _).
      rewrite feedbackElement_classList. split; [done|].
      unfold feedbackElement. simpl. by rewrite H3.
Qed.

(** X5 on an age field: 45 is typed, then the field is emptied. *)
Lemma stale_flag_witness :
  is_valid ∈ classList
               (validateAge (set_value (validateAge (age_field (js "45"))) [])).
Proof.
  apply (proj1 (proj1 (stale_flag (age_field (js "45")) []) eq_refl)).
  reflexivity.
Defined.

(** X6. [validateField] returns false exactly for a required field that is
    blank, and it returns true only for a field that is not named [age],
    [bmi] or [email]: for those three it returns [undefined], valid or
    not. *)
Theorem validateField_result (field : Element) :
  ((validateField field).2 = Some false <->
   required field = true /\ blank (value field)) /\
  ((validateField field).2 = Some true ->
   name field <> js "age" /\ name field <> js "bmi"
   /\ name field <> js "email").
Proof.
  rewrite validateField_strip. cbv zeta. unfold blank, jsstring_eqb.
  destruct (required field); simpl; repeat case_bool_decide; simpl;
    split; try split; try done; try (by intros [??]); try (by intros [=]).
Qed.

(** X6 on a valid age: the call returns [undefined]. *)
Lemma validateField_result_witness :
  (validateField (age_field [])).2 = Some false /\
  (validateField (age_field (js "45"))).2 = None.
Proof.
  split; [|reflexivity].
  apply (proj1 (validateField_result (age_field []))). by split.
Defined.

(** ** More on the prediction request *)

Lemma settlePredict_fields page r :
  fields (settlePredict page r).1 = fields page.
Proof.
  destruct (settlePredict_shows page r)
    as (message & type & page' & E & [-> |[error ->]]);
    apply showMessage_Normal in E as (_ & E & _); exact E.
Qed.

Lemma settlePredict_answered page data :
  answered data = true ->
  (settlePredict page (Parsed data)).2 = Normal (Some data).
Proof.
  intros Ha. unfold settlePredict.
  by destruct (onData_answered page data Ha) as [page' ->].
Qed.

Lemma settlePredict_caught_undefined page r error :
  caught r = Some error ->
  (settlePredict page r).2 = Normal None /\
  console (settlePredict page r).1 = console page ++ [error].
Proof.
  intros Hr. destruct (onError_returns page error) as (page' & E & Herror).
  apply showMessage_Normal in E as (_ & _ & E & _).
  assert ((match onError page error with
           | Throw => (page, Throw)
           | Normal (page, v) => (page, Normal v)
           end) = (console_error page' error, Normal None)) as Hcatch
    by (by rewrite Herror).
  unfold settlePredict. destruct r as [| |data]; simpl in Hr.
  - injection Hr as <-. rewrite Hcatch. simpl. by rewrite E.
  - injection Hr as <-. rewrite Hcatch. simpl. by rewrite E.
  - destruct (answered data) eqn:Ha; [done|]. injection Hr as <-.
    rewrite (onData_not_answered page data Ha), Hcatch. simpl.
    by rewrite E.
Qed.

(** X7. The promise of [submitPredictionAJAX] never rejects.  It resolves
    to the parsed data exactly when the [then] handler gets through with
    them: they are not [null] and the value to show has a text.  When it
    does not, because [data.success] throws on [null] or because the
    value to show is an object with a property [toString] of its own (or
    an array with one inside), then, as for a failed call, the error
    alert 'Network error occurred' is shown, the TypeError is logged and
    the promise resolves to [undefined]. *)
Theorem submitPredictionAJAX_resolves
    (page : Page) (formData : json) (r : Response) :
  (exists v, (submitPredictionAJAX page formData r).2 = Normal v) /\
  (forall data,
     (submitPredictionAJAX page formData r).2 = Normal (Some data) <->
     r = Parsed data /\ answered data = true) /\
  (forall data,
     r = Parsed data -> answered data = false ->
     (submitPredictionAJAX page formData r).2 = Normal None /\
     console (submitPredictionAJAX page formData r).1
     = console page ++ [TypeError] /\
     forall children,
       container page = Some children ->
       container (submitPredictionAJAX page formData r).1
       = Some (alert_danger [Text (js "Network error occurred")]
               :: children)).
Proof.
  unfold submitPredictionAJAX.
  assert (forall error, caught r = Some error ->
            (settlePredict (fetchPredict page formData) r).2 = Normal None)
    as Hcaught.
  { intros error Hr.
    by destruct (settlePredict_caught_undefined
                   (fetchPredict page formData) r error Hr). }
  split; [|split].
  - destruct r as [| |data]; [by eauto..|].
    destruct (answered data) eqn:Ha.
    + rewrite settlePredict_answered by done. eauto.
    + exists None. apply (Hcaught TypeError). simpl. by rewrite Ha.
  - intros data. split.
    + destruct r as [| |d].
      * by rewrite (Hcaught NetworkError).
      * by rewrite (Hcaught SyntaxError).
      * destruct (answered d) eqn:Ha.
        -- rewrite settlePredict_answered by done. by intros [= <-].
        -- rewrite (Hcaught TypeError); [done|]. simpl. by rewrite Ha.
    + intros [-> Ha]. by apply settlePredict_answered.
  - intros data -> Ha.
    assert (caught (Parsed data) = Some TypeError) as Hr
      by (simpl; by rewrite Ha).
    destruct (settlePredict_caught_undefined (fetchPredict page formData)
                (Parsed data) TypeError Hr) as [H1 H2].
    split; [done|]. split; [done|].
    intros children Hc.
    by destruct (settlePredict_caught (fetchPredict page formData)
                   (Parsed data) TypeError children Hr Hc) as (_ & H3 & _).
Qed.

(** X7 on a body that is [null], on one whose value to show has no text,
    and on an error response. *)
Lemma submitPredictionAJAX_resolves_witness :
  (submitPredictionAJAX page_blank_age sample_formData (Parsed JNull)).2
  = Normal None /\
  (submitPredictionAJAX page_blank_age sample_formData
     (Parsed response_no_text)).2 = Normal None /\
  (submitPredictionAJAX page_blank_age sample_formData
     (Parsed response_error)).2 = Normal (Some response_error).
Proof.
  split; [|split].
  - apply (proj2 (proj2 (submitPredictionAJAX_resolves page_blank_age
                           sample_formData (Parsed JNull))) JNull);
      reflexivity.
  - apply (proj2 (proj2 (submitPredictionAJAX_resolves page_blank_age
                           sample_formData (Parsed response_no_text)))
             response_no_text); reflexivity.
  - apply (proj1 (proj2 (submitPredictionAJAX_resolves page_blank_age
                           sample_formData (Parsed response_error)))).
    split; reflexivity.
Defined.

Lemma showMessage_one_alert page message type page' children :
  showMessage page message type = Normal page' ->
  container page = Some children ->
  exists a,
    container page' = Some (a :: children) /\
    timers page' = timers page ++ [(5000, a)].
Proof.
  intros E Hc. apply showMessage_Normal in E as (_ & _ & _ & _ & E).
  destruct (E children Hc) as [H1 H2]. eauto.
Qed.

(** X8. Every response, whatever it is, puts exactly one alert in front of
    a page that has a container, with one five-second timer for it, and
    none on a page that has no container; the handlers never touch the
    fields of the form. *)
Theorem settlePredict_one_alert (page : Page) (r : Response) :
  (forall children,
     container page = Some children ->
     exists a,
       container (settlePredict page r).1 = Some (a :: children) /\
       timers (settlePredict page r).1 = timers page ++ [(5000, a)]) /\
  (container page = None ->
   container (settlePredict page r).1 = None /\
   timers (settlePredict page r).1 = timers page) /\
  fields (settlePredict page r).1 = fields page.
Proof.
  destruct (settlePredict_shows page r)
    as (message & type & page' & E & H).
  split; [|split; [|apply settlePredict_fields]].
  - intros children Hc.
    destruct (showMessage_one_alert _ _ _ _ _ E Hc) as (a & H1 & H2).
    exists a. by destruct H as [-> |[error ->]].
  - intros Hc. apply showMessage_Normal in E as (_ & _ & _ & E & _).
    rewrite (E Hc) in H. by destruct H as [-> |[error ->]].
Qed.

(** X8 on the sample page. *)
Lemma settlePredict_one_alert_witness :
  exists a,
    container (settlePredict page_blank_age NotJSON).1 = Some [a] /\
    timers (settlePredict page_blank_age NotJSON).1 = [(5000, a)].
Proof.
  apply (proj1 (settlePredict_one_alert page_blank_age NotJSON) []).
  reflexivity.
Defined.

Lemma step_requests page a :
  requests (step page a) = requests page ++ submissions [a].
Proof.
  destruct a; simpl; rewrite ?app_nil_r; try reflexivity.
  apply settlePredict_requests.
Qed.

Lemma submissions_app t1 t2 :
  submissions (t1 ++ t2) = submissions t1 ++ submissions t2.
Proof. apply omap_app. Qed.

(** X9. In every execution of the client the requests sent are those of the
    calls of [submitPredictionAJAX], one for each call and in their
    order: typing, validation and the handling of a response, failed or
    not, send nothing. *)
Theorem run_requests (page : Page) (trace : list Action) :
  requests (run page trace) = requests page ++ submissions trace.
Proof.
  unfold run. revert page.
  induction trace as [|a trace IH]; intros page.
  - simpl. by rewrite app_nil_r.
  - change (a :: trace) with ([a] ++ trace).
    rewrite submissions_app, app_assoc, <- step_requests. apply IH.
Qed.

Lemma step_fields page a :
  leaves_fields a = true -> fields (step page a) = fields page.
Proof.
  destruct a; simpl; try done. intros _. apply settlePredict_fields.
Qed.

(** X10. Sending a request and handling a response never change a field:
    after any sequence of calls of [submitPredictionAJAX] and responses
    the fields of the form, their flags and feedback are what they
    were. *)
Theorem run_leaves_fields (page : Page) (trace : list Action) :
  forallb leaves_fields trace = true ->
  fields (run page trace) = fields page.
Proof.
  unfold run. revert page.
  induction trace as [|a trace IH]; intros page; simpl; [done|].
  intros [Ha Ht]%andb_true_iff. by rewrite IH, step_fields.
Qed.

(** X10 on the sample page. *)
Lemma run_leaves_fields_witness :
  fields (run page_blank_age
            [CallSubmitPredictionAJAX sample_formData;
             ResponseArrives (Parsed response_error)])
  = fields page_blank_age.
Proof.
  apply (run_leaves_fields page_blank_age
           [CallSubmitPredictionAJAX sample_formData;
            ResponseArrives (Parsed response_error)]).
  reflexivity.
Defined.

(** ** Password visibility *)

Lemma elem_of_tokens_add c c' l : c' ∈ tokens_add c l <-> c' = c \/ c' ∈ l.
Proof.
  unfold tokens_add. case_bool_decide.
  - split; [tauto|]. by intros [->|?].
  - rewrite elem_of_app, list_elem_of_singleton. tauto.
Qed.

Lemma elem_of_tokens_remove c c' l :
  c' ∈ tokens_remove c l <-> c' <> c /\ c' ∈ l.
Proof. unfold tokens_remove. rewrite list_elem_of_filter. tauto. Qed.

Lemma swap_tokens on off l :
  on <> off ->
  (on ∈ tokens_add on (tokens_remove off l))
  /\ (off ∉ tokens_add on (tokens_remove off l)).
Proof.
  intros Hne. rewrite !elem_of_tokens_add, !elem_of_tokens_remove.
  split; [by left|]. intros [?|[? _]]; congruence.
Qed.

Lemma fa_eye_ne : js "fa-eye" <> js "fa-eye-slash".
Proof. discriminate. Qed.

Lemma fa_eye_slash_ne : js "fa-eye-slash" <> js "fa-eye".
Proof. discriminate. Qed.

Lemma password_ne_text : js "password" <> js "text".
Proof. discriminate. Qed.

Lemma click_type input icon :
  type (togglePasswordVisibility_click input icon).1.1
  = if jsstring_eqb (type input) (js "password") then js "text"
    else js "password".
Proof.
  unfold togglePasswordVisibility_click. by repeat case_match.
Qed.

(** X11. A click on the button always switches the type of the input: to
    [text] when it was [password], and to [password] when it was anything
    else.  The listener completes exactly when the button holds an [i]
    element, and then the icon agrees with the new type: the struck eye
    for [text], the open eye for [password].  Value, name and classes of
    the input are not touched. *)
Theorem togglePasswordVisibility_click_switches
    (input : Element) (icon : option (list jsstring)) :
  (type input = js "password" ->
   type (togglePasswordVisibility_click input icon).1.1 = js "text" /\
   (is_Some icon ->
    shows_eye_slash (togglePasswordVisibility_click input icon).1.2)) /\
  (type input <> js "password" ->
   type (togglePasswordVisibility_click input icon).1.1 = js "password" /\
   (is_Some icon ->
    shows_eye (togglePasswordVisibility_click input icon).1.2)) /\
  ((togglePasswordVisibility_click input icon).2 = Normal tt <->
   is_Some icon) /\
  value (togglePasswordVisibility_click input icon).1.1 = value input /\
  name (togglePasswordVisibility_click input icon).1.1 = name input /\
  classList (togglePasswordVisibility_click input icon).1.1
  = classList input.
Proof.
  unfold togglePasswordVisibility_click, jsstring_eqb.
  case_bool_decide as Ht; destruct icon as [classes|]; simpl;
    repeat split; try done; try (by intros [? [=]]); try (by eauto).
  - intros _. exists (tokens_add (js "fa-eye-slash")
                        (tokens_remove (js "fa-eye") classes)).
    split; [done|]. apply swap_tokens, fa_eye_slash_ne.
  - intros _. exists (tokens_add (js "fa-eye")
                        (tokens_remove (js "fa-eye-slash") classes)).
    split; [done|]. apply swap_tokens, fa_eye_ne.
Qed.

(** X11 on a password field whose button has the open eye. *)
Lemma togglePasswordVisibility_click_switches_witness :
  type (togglePasswordVisibility_click
          (form_field (js "password") (js "password") (js "secret"))
          (Some [js "fas"; js "fa-eye"])).1.1 = js "text" /\
  shows_eye_slash
    (togglePasswordVisibility_click
       (form_field (js "password") (js "password") (js "secret"))
       (Some [js "fas"; js "fa-eye"])).1.2.
Proof.
  destruct (togglePasswordVisibility_click_switches
              (form_field (js "password") (js "password") (js "secret"))
              (Some [js "fas"; js "fa-eye"])) as (H & _).
  destruct (H eq_refl) as [H1 H2]. split; [exact H1|].
  apply H2. eauto.
Defined.

(** X12. Two clicks undo each other on a field of type [password] or
    [text]: the type is the one before, and the icon shows the eye of
    that type, the open eye for [password] and the struck eye for
    [text]. *)
Theorem togglePasswordVisibility_click_twice
    (input : Element) (classes : list jsstring) :
  type input = js "password" \/ type input = js "text" ->
  let once := togglePasswordVisibility_click input (Some classes) in
  let twice := togglePasswordVisibility_click once.1.1 once.1.2 in
  type twice.1.1 = type input /\
  twice.2 = Normal tt /\
  (type input = js "password" -> shows_eye twice.1.2) /\
  (type input = js "text" -> shows_eye_slash twice.1.2).
Proof.
  intros Ht once twice. subst once twice.
  unfold togglePasswordVisibility_click, jsstring_eqb.
  destruct Ht as [Ht|Ht]; rewrite Ht; simpl;
    repeat split; try done; try (by intros [=]);
    intros _; eexists; (split; [done|]); apply swap_tokens; discriminate.
Qed.

(** X12 on a password field. *)
Lemma togglePasswordVisibility_click_twice_witness :
  type (togglePasswordVisibility_click
          (togglePasswordVisibility_click
             (form_field (js "password") (js "password") (js "secret"))
             (Some [js "fas"; js "fa-eye"])).1.1
          (togglePasswordVisibility_click
             (form_field (js "password") (js "password") (js "secret"))
             (Some [js "fas"; js "fa-eye"])).1.2).1.1
  = js "password".
Proof.
  apply (togglePasswordVisibility_click_twice
           (form_field (js "password") (js "password") (js "secret"))
           [js "fas"; js "fa-eye"]).
  by left.
Defined.

(** ** The loading overlay *)

Lemma Node_forall (P : Node -> Prop) :
  (forall i c s h children, Forall P children -> P (Elt i c s h children)) ->
  forall n, P n.
Proof.
  intros HP. fix IH 1. intros [i c s h children]. apply HP.
  induction children as [|n r IHr]; constructor; [apply IH|apply IHr].
Qed.

(** Nothing to find is nothing to remove. *)
Lemma first_in_remove_first {A} here (below : Node -> option A) found
    below' l :
  Forall (fun n => below n = None -> below' n = None) l ->
  first_in here below found l = None -> remove_first here below' l = None.
Proof.
  induction 1 as [|n r Hn _ IH]; simpl; [done|].
  destruct (here n); [done|]. destruct (below n); [done|].
  intros H. by rewrite Hn, IH.
Qed.

Lemma findById_removeUnder id n :
  findById id n = None -> removeUnder id n = None.
Proof.
  induction n as [i c s h children IH] using Node_forall. simpl.
  intros H. by rewrite (first_in_remove_first _ _ _ _ _ IH H).
Qed.

Lemma getElementById_removeById id body :
  getElementById id body = None -> removeById id body = None.
Proof.
  apply first_in_remove_first, Forall_forall.
  intros n _. apply findById_removeUnder.
Qed.

Lemma remove_first_app_None here below l r :
  remove_first here below l = None ->
  remove_first here below (l ++ r) = (l ++.) <$> remove_first here below r.
Proof.
  induction l as [|n l IH]; simpl.
  - intros _. by destruct (remove_first here below r).
  - destruct (here n); [done|]. destruct (below n); [done|].
    destruct (remove_first here below l); [done|]. intros _.
    rewrite IH by done. by destruct (remove_first here below r).
Qed.

Lemma remove_first_app_Some here below l l' r :
  remove_first here below l = Some l' ->
  remove_first here below (l ++ r) = Some (l' ++ r).
Proof.
  revert l'. induction l as [|n l IH]; intros l'; simpl; [done|].
  destruct (here n); [by intros [= <-]|].
  destruct (below n); [by intros [= <-]|].
  destruct (remove_first here below l) as [l0|]; [|done].
  intros [= <-]. by rewrite (IH l0).
Qed.

Lemma first_in_app_here {A} here (below : Node -> option A) found l n r :
  here n = true -> is_Some (first_in here below found (l ++ n :: r)).
Proof.
  intros Hn. induction l as [|x l IH]; simpl.
  - rewrite Hn. eauto.
  - destruct (here x); [eauto|]. destruct (below x); eauto.
Qed.

Lemma first_in_remove_first_Some {A} here (below : Node -> option A) found
    below' l :
  Forall (fun n => is_Some (below n) -> is_Some (below' n)) l ->
  is_Some (first_in here below found l) ->
  is_Some (remove_first here below' l).
Proof.
  induction 1 as [|n r Hn _ IH]; simpl; [by intros [? [=]]|].
  destruct (here n); [eauto|].
  destruct (below n) as [a|].
  - destruct Hn as [n' ->]; eauto.
  - intros H. destruct (below' n); [eauto|].
    destruct (IH H) as [l' ->]. simpl. eauto.
Qed.

Lemma findById_removeUnder_Some id n :
  is_Some (findById id n) -> is_Some (removeUnder id n).
Proof.
  induction n as [i c s h children IH] using Node_forall. simpl.
  intros H.
  destruct (first_in_remove_first_Some _ _ _ _ _ IH H) as [l ->].
  simpl. eauto.
Qed.

Lemma loadingOverlay_id text :
  jsstring_eqb (node_id (loadingOverlay text)) (js "loadingOverlay") = true.
Proof. reflexivity. Qed.

(** X13. Showing the overlay and hiding it again gives back the document
    as it was, whatever the text of the overlay, provided that no element
    had the id [loadingOverlay] before. *)
Theorem hideLoadingOverlay_showLoadingOverlay
    (text : option jsstring) (body : list Node) :
  getElementById (js "loadingOverlay") body = None ->
  hideLoadingOverlay (showLoadingOverlay text body) = body.
Proof.
  intros Hnone. unfold hideLoadingOverlay, showLoadingOverlay.
  destruct (first_in_app_here
              (fun x => jsstring_eqb (node_id x) (js "loadingOverlay"))
              (findById (js "loadingOverlay")) (fun x => x) body
              (loadingOverlay (default (js "Loading...") text)) []
              (loadingOverlay_id _)) as [o Ho].
  unfold getElementById at 1. rewrite Ho.
  unfold removeById.
  rewrite remove_first_app_None
    by by apply getElementById_removeById.
  simpl. by rewrite app_nil_r.
Qed.

(** X13 on an empty page and on a page with one element. *)
Lemma hideLoadingOverlay_showLoadingOverlay_witness :
  hideLoadingOverlay
    (showLoadingOverlay None [Elt (js "main") (js "container") [] [] []])
  = [Elt (js "main") (js "container") [] [] []].
Proof.
  apply (hideLoadingOverlay_showLoadingOverlay None
           [Elt (js "main") (js "container") [] [] []]).
  reflexivity.
Defined.

(** X14. One call of [hideLoadingOverlay] removes one overlay: after the
    overlay is shown twice and hidden once, the document still has an
    element with the id [loadingOverlay], and it is the overlay shown
    last when none was there before. *)
Theorem hideLoadingOverlay_once
    (text1 text2 : option jsstring) (body : list Node) :
  is_Some
    (getElementById (js "loadingOverlay")
       (hideLoadingOverlay
          (showLoadingOverlay text2 (showLoadingOverlay text1 body)))) /\
  (getElementById (js "loadingOverlay") body = None ->
   hideLoadingOverlay
     (showLoadingOverlay text2 (showLoadingOverlay text1 body))
   = showLoadingOverlay text2 body).
Proof.
  unfold showLoadingOverlay.
  set (o1 := loadingOverlay (default (js "Loading...") text1)).
  set (o2 := loadingOverlay (default (js "Loading...") text2)).
  rewrite <- app_assoc. simpl.
  assert (is_Some (getElementById (js "loadingOverlay") (body ++ [o1; o2])))
    as [o Ho] by by apply first_in_app_here.
  unfold hideLoadingOverlay. rewrite Ho.
  destruct (getElementById (js "loadingOverlay") body) as [b|] eqn:Hb.
  - split; [|done].
    assert (is_Some (removeById (js "loadingOverlay") body)) as [l' Hl'].
    { apply (first_in_remove_first_Some _ (findById (js "loadingOverlay"))
               (fun x => x));
        [|unfold getElementById in Hb; rewrite Hb; eauto].
      apply Forall_forall. intros n _. apply findById_removeUnder_Some. }
    unfold removeById in *.
    rewrite (remove_first_app_Some _ _ _ _ _ Hl'). simpl.
    by apply first_in_app_here.
  - unfold removeById.
    rewrite remove_first_app_None
      by by apply getElementById_removeById.
    simpl. split; [|done].
    by apply (first_in_app_here _ _ _ body o2 []).
Qed.

(** X14 on an empty page. *)
Lemma hideLoadingOverlay_once_witness :
  hideLoadingOverlay
    (showLoadingOverlay (Some (js "Predicting..."))
       (showLoadingOverlay None []))
  = showLoadingOverlay (Some (js "Predicting...")) [].
Proof.
  apply (proj2 (hideLoadingOverlay_once None (Some (js "Predicting...")) [])).
  reflexivity.
Defined.

(** ** Export to CSV *)

(** Outside quotes a field ends at the end of the text, at a comma and at
    a line feed. *)
Lemma readCSV_field_end st field record records :
  st <> Quoted ->
  readCSV_from st field record records [] = records ++ [record ++ [field]] /\
  (forall r,
     readCSV_from st field record records (44%N :: r)
     = readCSV_from FieldStart [] (record ++ [field]) records r) /\
  (forall r,
     readCSV_from st field record records (10%N :: r)
     = readCSV_from FieldStart [] []
         (records ++ [record ++ [field]]) r).
Proof. by destruct st. Qed.

Lemma includes_false c data : includes c data = false <-> c ∉ data.
Proof.
  unfold includes. induction data as [|x data IH]; simpl.
  - split; [intros _; apply not_elem_of_nil|done].
  - rewrite orb_false_iff, IH, not_elem_of_cons, N.eqb_neq. tauto.
Qed.

(** A field without comma, quote and line feed is read as it is. *)
Lemma readCSV_unquoted data st field record records rest :
  st = FieldStart \/ st = Unquoted ->
  44%N ∉ data -> 34%N ∉ data -> 10%N ∉ data ->
  exists st',
    st' <> Quoted /\
    readCSV_from st field record records (data ++ rest)
    = readCSV_from st' (field ++ data) record records rest.
Proof.
  revert st field.
  induction data as [|c data IH]; intros st field Hst H44 H34 H10.
  - exists st. rewrite app_nil_r. split; [|done].
    by destruct Hst as [-> | ->].
  - apply not_elem_of_cons in H44 as [H44 H44'].
    apply not_elem_of_cons in H34 as [H34 H34'].
    apply not_elem_of_cons in H10 as [H10 H10'].
    destruct (IH Unquoted (field ++ [c])) as (st' & Hq & E); auto.
    exists st'. split; [done|].
    rewrite <- app_assoc in E. simpl in E. rewrite <- E. simpl.
    apply N.eqb_neq in H44, H34, H10.
    rewrite (N.eqb_sym c 44), (N.eqb_sym c 34), (N.eqb_sym c 10).
    rewrite H44, H34, H10. by destruct Hst as [-> | ->].
Qed.

(** Inside quotes the doubled quotes are read back as single ones, up to
    the closing quote. *)
Lemma readCSV_quoted data field record records rest :
  readCSV_from Quoted field record records
    (doubleQuotes data ++ 34%N :: rest)
  = readCSV_from QuoteSeen (field ++ data) record records rest.
Proof.
  revert field. induction data as [|c data IH]; intros field; simpl.
  - by rewrite app_nil_r.
  - destruct (c =? 34)%N eqn:Hc.
    + apply N.eqb_eq in Hc as ->. simpl.
      rewrite IH. by rewrite <- app_assoc.
    + simpl. rewrite Hc, IH. by rewrite <- app_assoc.
Qed.

(** The text of a cell is read back as the trimmed text of the cell. *)
Lemma readCSV_csvCell textContent record records rest :
  exportable textContent ->
  exists st',
    st' <> Quoted /\
    readCSV_from FieldStart [] record records (csvCell textContent ++ rest)
    = readCSV_from st' (trim textContent) record records rest.
Proof.
  intros He. unfold csvCell, exportable in *. cbv zeta.
  destruct (includes 44 (trim textContent)
            || includes 34 (trim textContent)) eqn:Hi.
  - exists QuoteSeen. split; [done|].
    rewrite <- !app_assoc. simpl. apply readCSV_quoted.
  - apply orb_false_iff in Hi as [H44%includes_false H34%includes_false].
    destruct (readCSV_unquoted (trim textContent) FieldStart [] record
                records rest) as (st' & Hq & E); auto.
    { intros H10. destruct (He H10); done. }
    by exists st'.
Qed.

Lemma csvRow_cons c1 c2 cols :
  csvRow (c1 :: c2 :: cols) = csvCell c1 ++ 44%N :: csvRow (c2 :: cols).
Proof. reflexivity. Qed.

(** A row of the file is read back as the row of the table. *)
Lemma readCSV_csvRow (cols record : list jsstring) records :
  cols <> [] -> Forall exportable cols ->
  readCSV_from FieldStart [] record records (csvRow cols)
  = records ++ [record ++ trimmedRow cols] /\
  (forall rest,
     readCSV_from FieldStart [] record records (csvRow cols ++ 10%N :: rest)
     = readCSV_from FieldStart [] []
         (records ++ [record ++ trimmedRow cols]) rest).
Proof.
  intros Hne Hall. revert record.
  induction Hall as [|c cols Hc Hall IH]; [done|]. intros record.
  destruct cols as [|c2 cols].
  - unfold csvRow. simpl. split.
    + destruct (readCSV_csvCell c record records [] Hc) as (st' & Hq & E).
      rewrite app_nil_r in E. rewrite E.
      by apply readCSV_field_end.
    + intros rest.
      destruct (readCSV_csvCell c record records (10%N :: rest) Hc)
        as (st' & Hq & E).
      rewrite E. by apply readCSV_field_end.
  - rewrite csvRow_cons.
    destruct (IH ltac:(done) (record ++ [trim c])) as [IH1 IH2].
    rewrite <- !app_assoc in IH1, IH2. simpl in IH1, IH2.
    split.
    + destruct (readCSV_csvCell c record records
                  (44%N :: csvRow (c2 :: cols)) Hc) as (st' & Hq & E).
      rewrite E.
      destruct (readCSV_field_end st' (trim c) record records Hq)
        as (_ & -> & _).
      exact IH1.
    + intros rest. rewrite <- app_assoc. simpl.
      destruct (readCSV_csvCell c record records
                  (44%N :: csvRow (c2 :: cols) ++ 10%N :: rest) Hc)
        as (st' & Hq & E).
      rewrite E.
      destruct (readCSV_field_end st' (trim c) record records Hq)
        as (_ & -> & _).
      apply IH2.
Qed.

Lemma csvContent_cons r1 r2 rows :
  csvContent (r1 :: r2 :: rows)
  = csvRow r1 ++ 10%N :: csvContent (r2 :: rows).
Proof. reflexivity. Qed.

Lemma readCSV_csvContent (rows records : list (list jsstring)) :
  rows <> [] ->
  Forall (fun cols => cols <> [] /\ Forall exportable cols) rows ->
  readCSV_from FieldStart [] [] records (csvContent rows)
  = records ++ trimmedRows rows.
Proof.
  intros Hne Hall. revert records.
  induction Hall as [|r rows [Hr Hc] Hall IH]; [done|]. intros records.
  destruct rows as [|r2 rows].
  - unfold csvContent. simpl.
    by destruct (readCSV_csvRow r [] records Hr Hc) as [-> _].
  - rewrite csvContent_cons.
    destruct (readCSV_csvRow r [] records Hr Hc) as [_ ->].
    rewrite IH by done. by rewrite <- app_assoc.
Qed.

(** X15. The file that [exportTableToCSV] writes can be read back: for a
    table with at least one row, in which every row has at least one cell
    and no cell has a line break without also a comma or a quote, a CSV
    reader gets from the file the rows of the table, cell by cell, each
    cell with its trimmed text: commas, quotes and quoted line breaks
    come back unchanged. *)
Theorem exportTableToCSV_readCSV
    (rows : list (list jsstring)) (filename : option jsstring) :
  rows <> [] ->
  Forall (fun cols => cols <> [] /\ Forall exportable cols) rows ->
  exists file,
    exportTableToCSV (Some rows) filename = Some file /\
    blob_type file = js "text/csv" /\
    download file = default (js "data.csv") filename /\
    readCSV (blob_content file) = trimmedRows rows.
Proof.
  intros Hne Hall. eexists. split; [reflexivity|]. simpl.
  repeat split. unfold readCSV.
  by rewrite readCSV_csvContent.
Qed.

Lemma includes_true c data : includes c data = true <-> c ∈ data.
Proof.
  destruct (includes c data) eqn:H.
  - split; [intros _|done].
    destruct (decide (c ∈ data)) as [|Hn]; [done|].
    apply includes_false in Hn. congruence.
  - apply includes_false in H. split; [done|tauto].
Qed.

Lemma exportableb_exportable textContent :
  exportableb textContent = true -> exportable textContent.
Proof.
  unfold exportableb, exportable.
  rewrite !orb_true_iff, negb_true_iff, !includes_true, includes_false.
  tauto.
Qed.

Lemma readable_table_Forall rows :
  readable_table rows = true ->
  Forall (fun cols => cols <> [] /\ Forall exportable cols) rows.
Proof.
  unfold readable_table. rewrite forallb_forall, Forall_forall.
  intros H cols Hc%list_elem_of_In. specialize (H cols Hc).
  apply andb_true_iff in H as [H1 H2]. split.
  - apply negb_true_iff in H1. by apply bool_decide_eq_false in H1.
  - rewrite forallb_forall in H2. apply Forall_forall.
    intros t Ht%list_elem_of_In. by apply exportableb_exportable, H2.
Qed.

(** X15 on the sample table. *)
Lemma exportTableToCSV_readCSV_witness :
  exists file,
    exportTableToCSV (Some sample_table) None = Some file /\
    blob_type file = js "text/csv" /\
    download file = js "data.csv" /\
    readCSV (blob_content file) = trimmedRows sample_table.
Proof.
  apply (exportTableToCSV_readCSV sample_table None); [discriminate|].
  apply readable_table_Forall. reflexivity.
Defined.

Lemma join_cons sep x y l :
  join sep (x :: y :: l) = x ++ sep ++ join sep (y :: l).
Proof. reflexivity. Qed.

Lemma join_glued sep (l1 l2 : list jsstring) x y :
  join sep (l1 ++ [x ++ sep ++ y] ++ l2) = join sep (l1 ++ [x; y] ++ l2).
Proof.
  induction l1 as [|a l1 IH]; simpl app.
  - destruct l2 as [|z l2]; [done|].
    rewrite !join_cons. by rewrite <- !app_assoc.
  - destruct l1 as [|b l1]; simpl app in *;
      rewrite !(join_cons sep a); do 2 f_equal; exact IH.
Qed.

Lemma join_cut sep t (l1 l2 : list jsstring) x y :
  join sep (l1 ++ [x ++ t ++ y] ++ l2)
  = join sep (l1 ++ [x]) ++ t ++ join sep (y :: l2).
Proof.
  induction l1 as [|a l1 IH]; simpl app.
  - destruct l2 as [|z l2]; [done|].
    rewrite !join_cons. simpl. by rewrite <- !app_assoc.
  - destruct l1 as [|b l1]; simpl app in *;
      rewrite !(join_cons sep a), <- !app_assoc; do 2 f_equal;
      exact IH.
Qed.

Lemma not_elem_of_app_cut {A} (c : A) (l1 l2 l3 : list A) :
  c ∉ l1 ++ l2 ++ l3 -> (c ∉ l1) /\ (c ∉ l3).
Proof. rewrite !elem_of_app. tauto. Qed.

Lemma csvCell_plain textContent :
  44%N ∉ trim textContent -> 34%N ∉ trim textContent ->
  csvCell textContent = trim textContent.
Proof.
  intros H44%includes_false H34%includes_false.
  unfold csvCell. cbv zeta. by rewrite H44, H34.
Qed.

(** X16. A line break inside a cell that has no comma and no quote is
    written as it is, so the file does not tell it from the end of a row:
    a table with the cell [m], whose text is that of [a], a line feed and
    that of [b], gives the same file as the table in which the row is cut
    in two, [a] ending the one and [b] starting the other. *)
Theorem exportTableToCSV_line_break
    (rows1 rows2 : list (list jsstring)) (cols1 cols2 : list jsstring)
    (m a b : jsstring) (filename : option jsstring) :
  trim m = trim a ++ [10%N] ++ trim b ->
  44%N ∉ trim m -> 34%N ∉ trim m ->
  exportTableToCSV (Some (rows1 ++ [cols1 ++ [m] ++ cols2] ++ rows2)) filename
  = exportTableToCSV
      (Some (rows1 ++ [cols1 ++ [a]; [b] ++ cols2] ++ rows2)) filename.
Proof.
  intros Hm H44 H34.
  assert (csvRow (cols1 ++ [m] ++ cols2)
          = csvRow (cols1 ++ [a]) ++ [10%N] ++ csvRow ([b] ++ cols2)) as Hrow.
  { unfold csvRow. rewrite !fmap_app, !fmap_cons, !fmap_nil.
    rewrite (csvCell_plain m H44 H34).
    rewrite Hm in H44, H34.
    apply not_elem_of_app_cut in H44 as [??], H34 as [??].
    rewrite Hm, <- (csvCell_plain a), <- (csvCell_plain b) by done.
    apply join_cut. }
  unfold exportTableToCSV. do 2 f_equal.
  unfold csvContent. rewrite !fmap_app, !fmap_cons, !fmap_nil.
  rewrite Hrow. apply join_glued.
Qed.

(** X16 on a cell with an address in two lines. *)
Lemma exportTableToCSV_line_break_witness :
  exportTableToCSV
    (Some [[js "Jane"; js "1 Main St" ++ [10%N] ++ js "Springfield";
            js "4200"]]) None
  = exportTableToCSV
      (Some [[js "Jane"; js "1 Main St"]; [js "Springfield"; js "4200"]])
      None.
Proof.
  apply (exportTableToCSV_line_break [] [] [js "Jane"] [js "4200"]
           (js "1 Main St" ++ [10%N] ++ js "Springfield")
           (js "1 Main St") (js "Springfield") None).
  - reflexivity.
  - apply includes_false. reflexivity.
  - apply includes_false. reflexivity.
Defined.

(** * Further properties of the schema *)

Lemma insertUser_unique s username email h now :
  ~ username_taken s username -> ~ email_taken s email ->
  unique_users s -> unique_users (insertUser s username email h now).1.
Proof.
  intros Hu He Hs i j u v. simpl.
  pose proof (autoincrement_fresh (users_table s) (users_seq s)) as Hf.
  intros [[<- <-]|[Hi Hiu]]%lookup_insert_Some
         [[<- <-]|[Hj Hjv]]%lookup_insert_Some; simpl; try done.
  - intros [E|E]; exfalso.
    + apply Hu. by apply (map_Exists_lookup_2 _ _ j v).
    + apply He. by apply (map_Exists_lookup_2 _ _ j v).
  - intros [E|E]; exfalso.
    + apply Hu. by apply (map_Exists_lookup_2 _ _ i u).
    + apply He. by apply (map_Exists_lookup_2 _ _ i u).
  - by apply Hs.
Qed.

Lemma createUser_unique email_first s username email h now :
  unique_users s ->
  unique_users (createUser email_first s username email h now).1.
Proof.
  intros Hs. unfold createUser.
  destruct email_first; repeat case_decide; try done;
    by apply insertUser_unique.
Qed.

Lemma execute_unique email_first s st :
  unique_users s -> unique_users (execute email_first s st).
Proof.
  intros Hs. destruct st as [u e h now|uid a p now|uid]; simpl.
  - by apply createUser_unique.
  - unfold recordPrediction. by case_decide.
  - unfold deleteUser. case_decide; [|done].
    intros i j u v. simpl.
    intros [_ Hi]%lookup_delete_Some [_ Hj]%lookup_delete_Some.
    by apply Hs.
Qed.

(** X17. The [UNIQUE] columns hold in every state the database can reach:
    no two rows of [users] have the same [username], and no two have the
    same [email]. *)
Theorem reachable_unique_users (email_first : bool) (s : Store) :
  reachable email_first s -> unique_users s.
Proof.
  induction 1 as [|s st _ IH].
  - intros i j u v Hi. simpl in Hi. by rewrite lookup_empty in Hi.
  - by apply execute_unique.
Qed.

(** X17 on the sample database. *)
Lemma reachable_unique_users_witness : unique_users store_two_users.
Proof.
  apply (reachable_unique_users false). unfold store_two_users.
  repeat constructor.
Defined.

(** ** Keys are not handed out twice *)

Lemma autoincrement_above {A} (table : gmap Z A) (seq : Z) :
  seq < autoincrement table seq.
Proof.
  unfold autoincrement.
  assert (seq <= map_fold (fun k _ acc => Z.max k acc) seq table);
    [|lia].
  apply (map_fold_weak_ind (fun r (m : gmap Z A) => seq <= r)); [lia|].
  intros i x m r _ IH. lia.
Qed.

Lemma execute_users_seq email_first s st :
  users_seq s <= users_seq (execute email_first s st).
Proof.
  destruct st as [u e h now|uid a p now|uid]; simpl.
  - unfold createUser.
    destruct email_first; repeat case_decide; simpl; try lia;
      pose proof (autoincrement_above (users_table s) (users_seq s)); lia.
  - unfold recordPrediction. case_decide; simpl; lia.
  - unfold deleteUser. case_decide; simpl; lia.
Qed.

Lemma execute_all_users_seq email_first s sts :
  users_seq s <= users_seq (execute_all email_first s sts).
Proof.
  unfold execute_all. revert s.
  induction sts as [|st sts IH]; intros s; simpl; [lia|].
  pose proof (execute_users_seq email_first s st).
  specialize (IH (execute email_first s st)). lia.
Qed.

Lemma createUser_Ok email_first s username email h now id :
  (createUser email_first s username email h now).2 = Ok id ->
  id = autoincrement (users_table s) (users_seq s) /\
  users_seq (createUser email_first s username email h now).1 = id.
Proof.
  unfold createUser.
  destruct email_first; repeat case_decide; simpl; try done;
    by intros [= <-].
Qed.

(** X18. [AUTOINCREMENT] never hands out a key of [users] twice: a user
    created later, after any statements in between, the deletion of the
    earlier user among them, gets a larger [id] than the earlier one
    got. *)
Theorem createUser_new_id (email_first : bool) (s : Store)
    (sts : list Statement) (u1 e1 h1 u2 e2 h2 : string)
    (now1 now2 id1 id2 : Z) :
  (createUser email_first s u1 e1 h1 now1).2 = Ok id1 ->
  (createUser email_first
     (execute_all email_first
        (createUser email_first s u1 e1 h1 now1).1 sts)
     u2 e2 h2 now2).2 = Ok id2 ->
  id1 < id2.
Proof.
  intros [_ H1]%createUser_Ok [-> _]%createUser_Ok.
  pose proof (execute_all_users_seq email_first
                (createUser email_first s u1 e1 h1 now1).1 sts) as Hseq.
  pose proof (autoincrement_above
                (users_table
                   (execute_all email_first
                      (createUser email_first s u1 e1 h1 now1).1 sts))
                (users_seq
                   (execute_all email_first
                      (createUser email_first s u1 e1 h1 now1).1 sts))).
  lia.
Qed.

(** X18 on the sample database: alice is deleted, then created again. *)
Lemma createUser_new_id_witness :
  (createUser false
     (execute_all false store_alice [DeleteUser 1])
     "alice" "alice@example.org" "pbkdf2:1" 200).2 = Ok 2 /\
  1 < 2.
Proof.
  split; [reflexivity|].
  apply (createUser_new_id false empty_store [DeleteUser 1]
           "alice" "alice@example.org" "pbkdf2:1"
           "alice" "alice@example.org" "pbkdf2:1" 100 200 1 2);
    reflexivity.
Defined.

(** ** Numbers to and from text *)

Lemma isDigit_value c :
  isDigit c = true ->
  digitValue c = Some (Z.of_N c - 48) /\ Z.of_N c - 48 < 10.
Proof.
  unfold isDigit, digitValue. intros H. rewrite H.
  apply andb_true_iff in H as [_ H%N.leb_le]. split; [done|lia].
Qed.

Lemma not_isDigit_stop c r :
  isDigit c = false -> digitsPrefix 10 (c :: r) = ([], c :: r).
Proof.
  unfold isDigit. intros H. cbn [digitsPrefix]. unfold digitValue.
  rewrite H.
  destruct ((97 <=? c) && (c <=? 122))%N eqn:E1.
  { apply andb_true_iff in E1 as [E1%N.leb_le _].
    destruct (Z.ltb_spec (Z.of_N c - 87) 10); [lia|done]. }
  destruct ((65 <=? c) && (c <=? 90))%N eqn:E2; [|done].
  apply andb_true_iff in E2 as [E2%N.leb_le _].
  destruct (Z.ltb_spec (Z.of_N c - 55) 10); [lia|done].
Qed.


Lemma digitsPrefix_digits a rest :
  Forall (fun c => isDigit c = true) a -> stops rest ->
  digitsPrefix 10 (a ++ rest) = ((fun c => Z.of_N c - 48) <$> a, rest).
Proof.
  intros Ha Hrest. induction Ha as [|c a Hc _ IH].
  - destruct rest as [|c r]; [done|]. by apply not_isDigit_stop.
  - destruct (isDigit_value c Hc) as [Hv Hlt].
    change ((c :: a) ++ rest) with (c :: (a ++ rest)).
    cbn [digitsPrefix]. rewrite Hv.
    destruct (Z.ltb_spec (Z.of_N c - 48) 10) as [_|?]; [|lia].
    by rewrite IH.
Qed.

Lemma digitsPrefix_all a :
  Forall (fun c => isDigit c = true) a ->
  digitsPrefix 10 a = ((fun c => Z.of_N c - 48) <$> a, []).
Proof.
  intros Ha. rewrite <-(app_nil_r a) at 1.
  by apply digitsPrefix_digits.
Qed.

Lemma digits_head s :
  digits s -> exists c r, s = c :: r /\ isDigit c = true.
Proof.
  intros [Hne Hall]. destruct s as [|c r]; [done|].
  exists c, r. split; [done|]. by inversion Hall.
Qed.

Lemma digits_last s :
  digits s -> exists r c, s = r ++ [c] /\ isDigit c = true.
Proof.
  intros [Hne Hall]. destruct (exists_last Hne) as (r & c & ->).
  exists r, c. split; [done|].
  apply Forall_app in Hall as [_ Hc]. by inversion Hc.
Qed.

Lemma isDigit_not_white c : isDigit c = true -> isWhiteSpace c = false.
Proof.
  unfold isDigit, isWhiteSpace. intros [H1 H2]%andb_true_iff.
  apply N.leb_le in H1, H2.
  repeat match goal with
         | |- context [(?a <=? ?b)%N] => destruct (N.leb_spec a b)
         | |- context [(?a =? ?b)%N] => destruct (N.eqb_spec a b)
         end; try done; lia.
Qed.

(** A text that starts and ends with something else than white space is
    its own [trim]. *)
Lemma trim_id c r s :
  isWhiteSpace c = false -> isWhiteSpace (List.last (c :: s) c) = false ->
  r = c :: s -> trim r = r.
Proof.
  intros Hc Hl ->. unfold trim, trimEnd.
  assert (trimStart (c :: s) = c :: s) as -> by (by cbn; rewrite Hc).
  destruct (exists_last (l:=c :: s)) as (r & d & E); [done|].
  rewrite E in Hl |- *. rewrite last_last in Hl.
  rewrite rev_app_distr. cbn [rev app]. cbn [trimStart]. rewrite Hl.
  change (d :: rev r) with (rev [d] ++ rev r).
  by rewrite <-rev_app_distr, rev_involutive.
Qed.

Lemma stripSign_other c r :
  c <> 45%N -> c <> 43%N -> stripSign (c :: r) = (false, c :: r).
Proof.
  intros H45 H43. unfold stripSign. destruct c as [|p]; [done|].
  repeat (destruct p as [p|p|]; try reflexivity); congruence.
Qed.

Lemma isDigit_bounds c : isDigit c = true -> (48 <= c <= 57)%N.
Proof.
  unfold isDigit. intros [H1 H2]%andb_true_iff.
  apply N.leb_le in H1, H2. lia.
Qed.

Lemma stripSign_digit c r :
  isDigit c = true -> stripSign (c :: r) = (false, c :: r).
Proof.
  intros H%isDigit_bounds. apply stripSign_other; lia.
Qed.

Lemma not_Infinity_digit c r :
  isDigit c = true -> isPrefixOf (js "Infinity") (c :: r) = false.
Proof.
  intros H%isDigit_bounds.
  change (js "Infinity") with (73%N :: js "nfinity"). cbn [isPrefixOf].
  destruct (N.eqb_spec 73 c); [lia|done].
Qed.

Lemma match_zero_prefix {A} (s : jsstring) (z d : A)
    (f : N -> jsstring -> A) :
  s <> [] -> (forall c r, s = 48%N :: c :: r -> f c r = d) ->
  match s with
  | [] => z
  | 48%N :: c :: r => f c r
  | _ => d
  end = d.
Proof.
  intros Hne Hf. destruct s as [|c0 s]; [done|].
  destruct (N.eq_dec c0 48) as [->|Hc].
  { destruct s; [done|]. by apply Hf. }
  destruct c0 as [|p]; [done|].
  repeat (destruct p as [p|p|]; try reflexivity); congruence.
Qed.

Lemma StringToNumber_decimal s :
  trim s = s -> s <> [] ->
  (forall c r, s = 48%N :: c :: r -> after_zero c) ->
  afterStrDecimalLiteral s = Some [] ->
  StringToNumber s = parseFloat s.
Proof.
  intros Htrim Hne Hz Hlit. unfold StringToNumber. cbv zeta.
  rewrite Htrim, Hlit. apply match_zero_prefix; [done|].
  intros c r E. destruct (Hz c r E) as [H%isDigit_bounds|[->| ->]];
    [|done..].
  repeat match goal with
         | |- context [(?a =? ?b)%N] => destruct (N.eqb_spec a b); [lia|]
         end.
  done.
Qed.

Lemma afterStrDecimalLiteral_fixed body :
  fixed_form body -> afterStrDecimalLiteral body = Some [].
Proof.
  intros (a & b & -> & Ha & [Hb Hball]).
  destruct (digits_head a Ha) as (c & r & -> & Hc). destruct Ha as [_ Ha].
  unfold afterStrDecimalLiteral.
  change ((c :: r) ++ [46%N] ++ b) with (c :: (r ++ [46%N] ++ b)).
  rewrite stripSign_digit, not_Infinity_digit by done.
  change (c :: (r ++ [46%N] ++ b)) with ((c :: r) ++ 46%N :: b).
  rewrite digitsPrefix_digits by done.
  rewrite digitsPrefix_all by done. done.
Qed.

Lemma afterExponent_digits ex :
  digits ex -> afterExponent (101%N :: 43%N :: ex) = [].
Proof.
  intros Hex. destruct (digits_head ex Hex) as (c & r & -> & Hc).
  destruct Hex as [_ Hex]. unfold afterExponent.
  change ((101 =? 101)%N || (101 =? 69)%N) with true. cbv iota.
  change (stripSign (43%N :: c :: r)).2 with (c :: r).
  by rewrite digitsPrefix_all.
Qed.

Lemma afterStrDecimalLiteral_exponential body :
  exponential_form body -> afterStrDecimalLiteral body = Some [].
Proof.
  intros (d & ex & Hd & Hex & [->|(ds & Hds & ->)]);
    unfold afterStrDecimalLiteral.
  - change ([d] ++ [101%N; 43%N] ++ ex)
      with (d :: ([101%N; 43%N] ++ ex)).
    rewrite stripSign_digit, not_Infinity_digit by done.
    change (d :: ([101%N; 43%N] ++ ex))
      with ([d] ++ 101%N :: ([43%N] ++ ex)).
    rewrite digitsPrefix_digits by (by repeat constructor).
    cbv beta iota. cbn [fmap list_fmap app].
    by rewrite (afterExponent_digits ex).
  - change ([d] ++ [46%N] ++ ds ++ [101%N; 43%N] ++ ex)
      with (d :: ([46%N] ++ ds ++ [101%N; 43%N] ++ ex)).
    rewrite stripSign_digit, not_Infinity_digit by done.
    change (d :: ([46%N] ++ ds ++ [101%N; 43%N] ++ ex))
      with ([d] ++ 46%N :: (ds ++ 101%N :: ([43%N] ++ ex))).
    rewrite digitsPrefix_digits by (by repeat constructor).
    cbv beta iota. destruct Hds as [_ Hds].
    rewrite digitsPrefix_digits by done.
    cbn [fmap list_fmap app].
    by rewrite (afterExponent_digits ex).
Qed.

Lemma trim_ends r c s pre l :
  r = c :: s -> r = pre ++ [l] ->
  isWhiteSpace c = false -> isWhiteSpace l = false -> trim r = r.
Proof.
  intros E1 E2 Hc Hl. apply (trim_id c r s); [done| |done].
  by rewrite <-E1, E2, last_last.
Qed.

Lemma body_ends body :
  fixed_form body \/ exponential_form body ->
  exists c s pre l,
    body = c :: s /\ body = pre ++ [l] /\
    isDigit c = true /\ isDigit l = true /\
    forall c' r', s = c' :: r' -> after_zero c'.
Proof.
  intros [(a & b & -> & Ha & Hb)
         |(d & ex & Hd & Hex & [->|(ds & Hds & ->)])].
  - destruct (digits_head a Ha) as (c & ra & -> & Hc).
    destruct (digits_last b Hb) as (pb & l & -> & Hl).
    exists c, (ra ++ [46%N] ++ pb ++ [l]), ((c :: ra) ++ [46%N] ++ pb), l.
    split_and!; try done.
    { by rewrite <-!app_assoc. }
    intros c' r' E. destruct Ha as [_ Ha]. inversion Ha as [|? ? _ Hra].
    destruct ra as [|c2 ra]; simplify_eq/=.
    + right. by left.
    + left. by inversion Hra.
  - destruct (digits_last ex Hex) as (pex & l & -> & Hl).
    exists d, ([101%N; 43%N] ++ pex ++ [l]), ([d; 101%N; 43%N] ++ pex), l.
    split_and!; try done.
    intros c' r' E. simplify_eq/=. right. by right.
  - destruct (digits_last ex Hex) as (pex & l & -> & Hl).
    exists d, ([46%N] ++ ds ++ [101%N; 43%N] ++ pex ++ [l]),
      ([d; 46%N] ++ ds ++ [101%N; 43%N] ++ pex), l.
    split_and!; try done.
    { cbn [app]. do 2 f_equal. rewrite <-!app_assoc. done. }
    intros c' r' E. simplify_eq/=. right. by left.
Qed.

Lemma afterStrDecimalLiteral_minus c r :
  isDigit c = true ->
  afterStrDecimalLiteral (45%N :: c :: r) = afterStrDecimalLiteral (c :: r).
Proof.
  intros Hc. unfold afterStrDecimalLiteral.
  change (stripSign (45%N :: c :: r)) with (true, c :: r).
  by rewrite stripSign_digit.
Qed.

(** On the text of a Number the coercion of a comparison and [parseFloat]
    read the same literal. *)
Lemma StringToNumber_numeric_text s :
  numeric_text s -> StringToNumber s = parseFloat s.
Proof.
  intros (sign & body & -> & Hsign & Hbody).
  assert (afterStrDecimalLiteral body = Some []) as Hlit.
  { destruct Hbody; eauto using afterStrDecimalLiteral_fixed,
      afterStrDecimalLiteral_exponential. }
  destruct (body_ends body Hbody) as (c & s & pre & l & E1 & E2 & Hc & Hl & Hz).
  apply isDigit_not_white in Hl as Hl'.
  destruct Hsign as [-> | ->]; cbn [app].
  - apply StringToNumber_decimal; try done.
    + apply isDigit_not_white in Hc. by eapply trim_ends.
    + by rewrite E1.
    + intros c' r' E. rewrite E in E1. simplify_eq. by eapply Hz.
  - apply StringToNumber_decimal; try done.
    + eapply (trim_ends _ 45%N body (45%N :: pre) l); try done.
      by rewrite E2.
    + rewrite E1 in Hlit |- *. by rewrite afterStrDecimalLiteral_minus.
Qed.

Lemma isDigit_of_Z n : 0 <= n < 10 -> isDigit (Z.to_N (48 + n)) = true.
Proof.
  intros Hn. unfold isDigit. apply andb_true_iff.
  split; apply N.leb_le; lia.
Qed.

Lemma decimalDigits_fuel_digits fuel n :
  0 <= n -> Forall (fun c => isDigit c = true) (decimalDigits_fuel fuel n).
Proof.
  revert n. induction fuel as [|fuel IH]; intros n Hn; cbn; [done|].
  destruct (Z.ltb_spec n 10).
  - repeat constructor. apply isDigit_of_Z. lia.
  - apply Forall_app. split.
    + apply IH. by apply Z.div_pos.
    + repeat constructor. apply isDigit_of_Z.
      by apply Z.mod_pos_bound.
Qed.

Lemma decimalDigits_digits n : 0 <= n -> digits (decimalDigits n).
Proof.
  intros Hn. split; [|by apply decimalDigits_fuel_digits].
  unfold decimalDigits. cbn. destruct (n <? 10); [done|].
  by intros [_ ?]%app_eq_nil.
Qed.

Lemma fixedDigits_fixed_form n :
  0 <= n -> fixed_form (fixedDigits n 1).
Proof.
  intros Hn. destruct (decimalDigits_digits n Hn) as [_ Hall].
  unfold fixedDigits. cbv zeta.
  set (m := replicate (2 - List.length (decimalDigits n)) 48%N
            ++ decimalDigits n).
  assert (Forall (fun c => isDigit c = true) m) as Hm.
  { apply Forall_app. split; [|done]. by apply Forall_replicate. }
  assert (2 <= List.length m)%nat as Hlen.
  { unfold m. rewrite length_app, length_replicate.
    lia. }
  clearbody m.
  exists (take (List.length m - 1) m), (drop (List.length m - 1) m).
  split; [done|]. split; (split; [|by auto using Forall_take, Forall_drop]).
  - intros E. apply (f_equal List.length) in E.
    rewrite length_take in E. change (List.length []) with 0%nat in E.
    lia.
  - intros E. apply (f_equal List.length) in E.
    rewrite length_drop in E. change (List.length []) with 0%nat in E.
    lia.
Qed.

Lemma exponentialForm_form s n :
  0 <= s -> 0 <= n - 1 -> exponential_form (exponentialForm s n).
Proof.
  intros Hs Hn. unfold exponentialForm.
  destruct (decimalDigits_digits s Hs) as [Hne Hall].
  destruct (decimalDigits s) as [|d ds]; [done|].
  inversion Hall as [|? ? Hd Hds]; subst.
  exists d, (decimalDigits (n - 1)).
  split; [done|]. split; [by apply decimalDigits_digits|].
  destruct ds as [|d' ds]; [by left|].
  right. exists (d' :: ds). by split.
Qed.

Lemma shortest_at_bounds x X n k s n' :
  0 <= X -> shortest_at x X n k = Some (s, n') -> 0 <= s /\ n <= n'.
Proof.
  intros HX. unfold shortest_at. cbv zeta.
  assert (0 <= X / 10 ^ (n - k)) as Hlo.
  { destruct (Z.eq_dec (10 ^ (n - k)) 0) as [->|Hne].
    - by rewrite Z.div_0_r.
    - apply Z.div_pos; [done|].
      assert (0 <= 10 ^ (n - k)) by (apply Z.pow_nonneg; lia). lia. }
  assert (0 <= 10 ^ (k - 1)) as Hk by (apply Z.pow_nonneg; lia).
  assert (forall s0, 0 <= s0 ->
    (if s0 =? 10 ^ k then (10 ^ (k - 1), n + 1) else (s0, n)) = (s, n') ->
    0 <= s /\ n <= n') as Hpick.
  { intros s0 Hs0 E. destruct (s0 =? 10 ^ k); simplify_eq; lia. }
  intros E.
  repeat match goal with
         | E : context [SFeqb ?a ?b] |- _ => destruct (SFeqb a b)
         | E : context [?a <? ?b] |- _ => destruct (a <? b)
         | E : context [Z.even ?a] |- _ => destruct (Z.even a)
         end; try done; injection E as E; apply Hpick in E; (done || lia).
Qed.

Lemma shortest_from_bounds fuel x X n k s n' k' :
  0 <= X -> shortest_from fuel x X n k = Some (s, n', k') ->
  0 <= s /\ n <= n'.
Proof.
  intros HX. revert k. induction fuel as [|fuel IH]; intros k; [done|].
  cbn [shortest_from].
  destruct (shortest_at x X n k) as [[s0 n0]|] eqn:E.
  - intros ?; simplify_eq. by eapply shortest_at_bounds.
  - apply IH.
Qed.

Lemma NumberToString_exponential_form x X :
  0 <= X -> exponential_form (NumberToString_exponential x X).
Proof.
  intros HX. unfold NumberToString_exponential. cbv zeta.
  assert (1 <= Z.of_nat (List.length (decimalDigits X))) as Hn.
  { destruct (decimalDigits_digits X HX) as [Hne _].
    destruct (decimalDigits X); [done|]. cbn. lia. }
  destruct (shortest_from _ _ _ _ _) as [[[s n'] k]|] eqn:E.
  - apply shortest_from_bounds in E as [??]; [|done].
    apply exponentialForm_form; lia.
  - apply exponentialForm_form; lia.
Qed.

(** The texts [toFixed] gives: three names, or the text of a Number. *)
Lemma toFixed_text x :
  toFixed x 1 = js "NaN" \/ toFixed x 1 = js "Infinity" \/
  toFixed x 1 = js "-Infinity" \/ numeric_text (toFixed x 1).
Proof.
  destruct x as [sign|[|]| |sign m e]; auto.
  - do 3 right. exists [], (fixedDigits 0 1). split; [done|].
    split; [by left|]. left. by apply fixedDigits_fixed_form.
  - do 3 right. unfold toFixed.
    eexists _, _. split; [done|]. split.
    { destruct sign; [by right|by left]. }
    assert (0 < Z.pos m) by lia.
    destruct (Z.leb_spec 0 e).
    + assert (0 < 2 ^ e) by (apply Z.pow_pos_nonneg; lia).
      destruct (_ <=? _).
      * right. apply NumberToString_exponential_form. nia.
      * left. apply fixedDigits_fixed_form. nia.
    + assert (0 < 2 ^ (- e)) by (apply Z.pow_pos_nonneg; lia).
      destruct (_ <=? _).
      * right. apply NumberToString_exponential_form.
        apply Z.div_pos; lia.
      * left. apply fixedDigits_fixed_form.
        apply Z.div_pos; [|lia]. change (Z.of_nat 1) with 1. lia.
Qed.

(** A comparison of the text [toFixed] gives reads the Number
    [parseFloat] reads. *)
Lemma StringToNumber_toFixed x :
  StringToNumber (toFixed x 1) = parseFloat (toFixed x 1).
Proof.
  destruct (toFixed_text x) as [-> |[-> |[-> |H]]];
    [by vm_compute..|].
  by apply StringToNumber_numeric_text.
Qed.

(** ** The BMI calculator *)

Lemma colour_of_category_text bmi :
  StringToNumber bmi = parseFloat bmi ->
  colour_of_category (colorClass bmi) (getBMICategory (parseFloat bmi)).
Proof.
  intros E. unfold colorClass, getBMICategory, colour_of_category.
  rewrite E.
  destruct (js_lt _ num_18_5); [by left|].
  destruct (js_lt _ num_25); [by right; left|].
  destruct (js_lt _ num_30); [by right; right; left|].
  by right; right; right.
Qed.

Lemma calculateBMI_result doc h w old :
  height doc = Some h -> weight doc = Some w -> h <> [] -> w <> [] ->
  resultDiv doc = Some old ->
  resultDiv (calculateBMI doc)
  = Some (bmiResultMarkup (colorClass (computedBMI h w)) (computedBMI h w)
            (getBMICategory (parseFloat (computedBMI h w)))).
Proof.
  intros Hh Hw Hh' Hw' Hr. unfold calculateBMI. rewrite Hh, Hw, Hr.
  destruct h; [done|]. by destruct w.
Qed.

(** X19. When both texts are there and the result element exists,
    [calculateBMI] writes the BMI with a colour and a category that always
    go together: [text-info] with Underweight, [text-success] with Normal
    weight, [text-warning] with Overweight and [text-danger] with Obese.
    The colour is chosen by comparing the text [toFixed] gave, the
    category from [parseFloat] of that text; on every text [toFixed] can
    give the two read the same Number. *)
Theorem calculateBMI_colour_matches_category doc h w old :
  height doc = Some h -> weight doc = Some w -> h <> [] -> w <> [] ->
  resultDiv doc = Some old ->
  exists colour category,
    resultDiv (calculateBMI doc)
    = Some (bmiResultMarkup colour (computedBMI h w) category) /\
    category = getBMICategory (parseFloat (computedBMI h w)) /\
    colour_of_category colour category.
Proof.
  intros Hh Hw Hh' Hw' Hr.
  exists (colorClass (computedBMI h w)),
    (getBMICategory (parseFloat (computedBMI h w))).
  split; [by eapply calculateBMI_result|]. split; [done|].
  apply colour_of_category_text. apply StringToNumber_toFixed.
Qed.

Lemma calculateBMI_colour_matches_category_witness :
  exists colour category,
    resultDiv (calculateBMI sample_calculator)
    = Some (bmiResultMarkup colour (js "22.5") category) /\
    category = js "Normal weight" /\
    colour_of_category colour category.
Proof.
  apply (calculateBMI_colour_matches_category sample_calculator
           (js "170") (js "65") []); done.
Defined.

Lemma js_div_NaN_r a : js_div a NaN = NaN.
Proof. by destruct a. Qed.

Lemma computedBMI_NaN h w :
  StringToNumber h = NaN \/ StringToNumber w = NaN ->
  computedBMI h w = js "NaN".
Proof.
  unfold computedBMI. intros [-> | ->]; [|done].
  change (js_div NaN (of_Z 100)) with NaN.
  change (js_mul NaN NaN) with NaN. by rewrite js_div_NaN_r.
Qed.

(** X20. A height or a weight that is not the text of a Number (and is
    not empty) does not stop [calculateBMI]: the result reads NaN, in the
    colour [text-danger] and with the category Obese. *)
Theorem calculateBMI_not_a_number doc h w old :
  height doc = Some h -> weight doc = Some w -> h <> [] -> w <> [] ->
  resultDiv doc = Some old ->
  StringToNumber h = NaN \/ StringToNumber w = NaN ->
  resultDiv (calculateBMI doc)
  = Some (bmiResultMarkup (js "text-danger") (js "NaN") (js "Obese")).
Proof.
  intros Hh Hw Hh' Hw' Hr HNaN.
  rewrite (calculateBMI_result doc h w old) by done.
  by rewrite (computedBMI_NaN h w HNaN).
Qed.

Lemma calculateBMI_not_a_number_witness :
  StringToNumber (js "1,70") = NaN /\
  resultDiv (calculateBMI
               (mkCalculator (Some (js "1,70")) (Some (js "65"))
                  (Some []) None))
  = Some (bmiResultMarkup (js "text-danger") (js "NaN") (js "Obese")).
Proof.
  split; [reflexivity|].
  apply (calculateBMI_not_a_number _ (js "1,70") (js "65") []);
    [done..|by left].
Defined.

(** X21. A height that reads as zero (a zero, or white space only)
    divides by zero: with a weight above zero the result reads Infinity,
    [text-danger] and Obese, and with a weight below zero it reads
    -Infinity, [text-info] and Underweight. *)
Theorem calculateBMI_zero_height doc h w old s sign m e :
  height doc = Some h -> weight doc = Some w -> h <> [] -> w <> [] ->
  resultDiv doc = Some old ->
  StringToNumber h = S754_zero s ->
  StringToNumber w = S754_finite sign m e ->
  resultDiv (calculateBMI doc)
  = Some (if sign
          then bmiResultMarkup (js "text-info") (js "-Infinity")
                 (js "Underweight")
          else bmiResultMarkup (js "text-danger") (js "Infinity")
                 (js "Obese")).
Proof.
  intros Hh Hw Hh' Hw' Hr Hz Hf.
  rewrite (calculateBMI_result doc h w old) by done.
  assert (computedBMI h w = if sign then js "-Infinity" else js "Infinity")
    as ->.
  { unfold computedBMI. rewrite Hz, Hf. by destruct s, sign. }
  by destruct sign.
Qed.

Lemma calculateBMI_zero_height_witness :
  StringToNumber (js " ") = S754_zero false /\
  resultDiv (calculateBMI
               (mkCalculator (Some (js " ")) (Some (js "65"))
                  (Some []) None))
  = Some (bmiResultMarkup (js "text-danger") (js "Infinity") (js "Obese")).
Proof.
  split; [reflexivity|].
  eapply (calculateBMI_zero_height _ (js " ") (js "65") [] false false);
    reflexivity || done.
Defined.

Lemma validateBMI_value input : value (validateBMI input) = value input.
Proof.
  destruct (validateBMI_same_field input) as [E _]. exact E.
Qed.

Lemma set_value_value input : set_value input (value input) = input.
Proof. by destruct input. Qed.

Lemma calculateBMI_field doc h w old input :
  height doc = Some h -> weight doc = Some w -> h <> [] -> w <> [] ->
  resultDiv doc = Some old -> bmiInput doc = Some input ->
  bmiInput (calculateBMI doc)
  = Some (validateBMI (set_value input (computedBMI h w))).
Proof.
  intros Hh Hw Hh' Hw' Hr Hi. unfold calculateBMI. rewrite Hh, Hw, Hr, Hi.
  destruct h; [done|]. by destruct w.
Qed.

(** X22. When the BMI computed is between 10 and 50, [calculateBMI]
    leaves it as the value of the BMI field of the main form, flagged
    [is-valid] and not [is-invalid], and the feedback under the field is
    the category written in the result. *)
Theorem calculateBMI_fills_field doc h w old input :
  height doc = Some h -> weight doc = Some w -> h <> [] -> w <> [] ->
  resultDiv doc = Some old -> bmiInput doc = Some input ->
  in_range num_10 num_50 (parseFloat (computedBMI h w)) = true ->
  exists colour category field,
    resultDiv (calculateBMI doc)
    = Some (bmiResultMarkup colour (computedBMI h w) category) /\
    bmiInput (calculateBMI doc) = Some field /\
    value field = computedBMI h w /\
    feedback field = Some category /\
    (is_valid ∈ classList field) /\ (is_invalid ∉ classList field).
Proof.
  intros Hh Hw Hh' Hw' Hr Hi Hin.
  eexists _, _, _. split; [by eapply calculateBMI_result|].
  split; [by eapply calculateBMI_field|].
  destruct (validateBMI_in_range (set_value input (computedBMI h w)) Hin)
    as (Hv & Hnv & Hf & Hval).
  done.
Qed.

Lemma calculateBMI_fills_field_witness :
  in_range num_10 num_50 (parseFloat (computedBMI (js "170") (js "65")))
  = true /\
  exists colour category field,
    resultDiv (calculateBMI sample_calculator)
    = Some (bmiResultMarkup colour (js "22.5") category) /\
    bmiInput (calculateBMI sample_calculator) = Some field /\
    value field = js "22.5" /\
    feedback field = Some category /\
    (is_valid ∈ classList field) /\ (is_invalid ∉ classList field).
Proof.
  split; [reflexivity|].
  apply (calculateBMI_fills_field sample_calculator (js "170") (js "65")
           [] (bmi_field [])); done.
Defined.

(** X23. [calculateBMI] run a second time changes nothing: the result,
    and the BMI field with its flags, feedback and border, are what the
    first run left. *)
Theorem calculateBMI_again doc :
  calculateBMI (calculateBMI doc) = calculateBMI doc.
Proof.
  destruct doc as [h w r b]. unfold calculateBMI.
  cbn [height weight resultDiv bmiInput].
  destruct (nonEmpty h && nonEmpty w) eqn:E.
  - destruct r as [old|]; cbn [height weight resultDiv bmiInput];
      rewrite E; [|done].
    f_equal. destruct b as [input|]; [|done]. f_equal.
    set (bmi := computedBMI (default [] h) (default [] w)).
    assert (value (validateBMI (set_value input bmi)) = bmi) as Hv
      by apply validateBMI_value.
    rewrite <-Hv at 2. rewrite set_value_value. apply validateBMI_again.
  - destruct r as [old|]; cbn [height weight resultDiv bmiInput];
      by rewrite E.
Qed.
